(** * fessonia: the filter chain and the FFmpeg command, embedded and verified

    A shallow embedding of [lib/filter_chain.js] and [lib/ffmpeg_command.js].
    JavaScript values are tagged by their class, exceptions are an explicit
    result type, identifiers are resolved against the bindings of the module
    they occur in, and objects that the command mutates through a reference
    live in a store indexed by object identity. *)

From Stdlib Require Import String Ascii List Bool Arith ZArith Lia DecimalString
  DecimalNat DecimalFacts.
From stdpp Require Import base list gmap strings.

Set Warnings "-register-all".

(** ** JavaScript basics shared by the two modules *)

Module Js.

(** The exceptions the two modules can raise.  [ReferenceError x] is what
    the engine raises when the identifier [x] is read and no binding for it
    exists in the scope chain; [TypeError] is raised by a property access on
    [undefined]; [Error] is [new Error(msg)] thrown by the code itself. *)
Inductive error : Type :=
  | ReferenceError (name : string)
  | TypeError (msg : string)
  | Error (msg : string).

Inductive result (A : Type) : Type :=
  | Ok (a : A)
  | Throw (e : error).
Arguments Ok {A} a.
Arguments Throw {A} e.

#[global] Instance result_ret : MRet result := @Ok.
#[global] Instance result_bind : MBind result :=
  fun A B (k : A -> result B) (m : result A) =>
    match m with
    | Ok a => k a
    | Throw e => Throw e
    end.

(** Bindings every module of the library sees without declaring them: the
    ones of Node.js, and [logger], which the configuration module puts on
    the global object when the library is loaded. *)
Definition globals : list string :=
  ["Array"; "Error"; "Map"; "Object"; "String"; "Promise"; "require"; "module";
   "logger"].

(** Reading the identifier [x] in a module whose top-level bindings are
    [bindings]. *)
Definition resolve (bindings : list string) (x : string) : result unit :=
  if existsb (String.eqb x) (bindings ++ globals) then Ok tt
  else Throw (ReferenceError x).

(** [String(n)] and template interpolation of a non-negative integer. *)
Definition decimal (n : nat) : string := NilZero.string_of_uint (Nat.to_uint n).

(** [s.startsWith(t)] *)
Definition startsWith (s t : string) : bool := String.prefix t s.

(** [s.endsWith(t)]: some suffix of [s] is [t]. *)
Fixpoint endsWith (s t : string) : bool :=
  String.eqb s t ||
  match s with
  | EmptyString => false
  | String _ r => endsWith r t
  end.

(** [l.join(sep)] *)
Definition join (sep : string) (l : list string) : string := String.concat sep l.

(** The double quote character. *)
Definition dquote : ascii := ascii_of_nat 34.

(** [s.replace(/\"/g, '\\"')]: every double quote gets a backslash in front. *)
Fixpoint escapeQuotes (s : string) : string :=
  match s with
  | EmptyString => EmptyString
  | String c r =>
      if Ascii.eqb c dquote
      then String (ascii_of_nat 92) (String dquote (escapeQuotes r))
      else String c (escapeQuotes r)
  end.

(** No double quote of [s] stands bare: each one comes right after a
    backslash ([afterBackslash] tells whether the character before [s] was
    one). *)
Fixpoint noBareQuote (afterBackslash : bool) (s : string) : bool :=
  match s with
  | EmptyString => true
  | String c r =>
      if Ascii.eqb c dquote then afterBackslash && noBareQuote false r
      else noBareQuote (Ascii.eqb c (ascii_of_nat 92)) r
  end.

End Js.

Import Js.

(** ** The filter node, as far as [filter_chain.js] reads it

    [lib/filter_node.js] is not part of the sources at hand.  A chain reads
    four things from a node: the arrays [inputs] and [outputs] of pad
    descriptors (the descriptor ['N'] marks a variable number of pads), the
    [padPrefix] from which output pad names are built, and [toString()]. *)

Module FilterNode.

Record t : Type := mk {
  toString : string;
  inputs : list string;
  outputs : list string;
  padPrefix : string
}.

End FilterNode.

(** ** The stream specifier, as far as [filter_chain.js] reads it

    [lib/ffmpeg_stream_specifier.js] is not part of the sources at hand; the
    chain only calls [toString()] on a specifier. *)

Module FFmpegStreamSpecifier.

Record t : Type := mk { toString : string }.

End FFmpegStreamSpecifier.

(** ** [lib/filter_chain.js] *)

Module FilterChain.

(** Top-level bindings of the module: [const FilterNode = require(...)] and
    [class FilterChain]. *)
Definition module_bindings : list string := ["FilterNode"; "FilterChain"].

Record t : Type := mk {
  nodes : list FilterNode.t;
  inputs : list FFmpegStreamSpecifier.t
}.

(** What a caller can pass to the functions of the module. *)
Inductive value : Type :=
  | VFilterNode (n : FilterNode.t)
  | VFilterChain (c : t)
  | VStreamSpecifier (s : FFmpegStreamSpecifier.t)
  | VArray (elts : list value)
  | VOther (descr : string).

(** [v instanceof FilterNode] *)
Definition isFilterNode (v : value) : bool :=
  match v with VFilterNode _ => true | _ => false end.

(** [v instanceof FFmpegStreamSpecifier] *)
Definition isStreamSpecifier (v : value) : bool :=
  match v with VStreamSpecifier _ => true | _ => false end.

Definition asFilterNode (v : value) : option FilterNode.t :=
  match v with VFilterNode n => Some n | _ => None end.

Definition asStreamSpecifier (v : value) : option FFmpegStreamSpecifier.t :=
  match v with VStreamSpecifier s => Some s | _ => None end.

(** [new FilterChain(nodes)] *)
Definition constructor (nodes : value) : result t :=
  match nodes with
  | VArray l =>
      if length l <? 1 then
        Throw (Error "Invalid parameter: nodes Array cannot be empty; it must have at least one FilterNode object")
      else if existsb (fun i => negb (isFilterNode i)) l then
        Throw (Error "Invalid parameter: nodes Array must contain only FilterNode object")
      else Ok {| nodes := omap asFilterNode l; inputs := [] |}
  | _ =>
      Throw (Error "Invalid parameter: nodes Array cannot be empty; it must have at least one FilterNode object")
  end.

(** [appendNodes(...nodes)] *)
Definition appendNodes (c : t) (more : list FilterNode.t) : t :=
  {| nodes := nodes c ++ more; inputs := inputs c |}.

(** [prependNodes(...nodes)] *)
Definition prependNodes (c : t) (more : list FilterNode.t) : t :=
  {| nodes := more ++ nodes c; inputs := inputs c |}.

(** [get inputNode]: [this.nodes[0]], [undefined] on an empty array. *)
Definition inputNode (c : t) : option FilterNode.t := head (nodes c).

(** [get outputNode]: [this.nodes[this.nodes.length - 1]]. *)
Definition outputNode (c : t) : option FilterNode.t := last (nodes c).

(** [get inputPads]: [this.inputNode.inputs]. *)
Definition inputPads (c : t) : result (list string) :=
  match inputNode c with
  | Some n => Ok (FilterNode.inputs n)
  | None => Throw (TypeError "Cannot read properties of undefined (reading 'inputs')")
  end.

(** [get outputPads]: [this.outputNode.outputs]. *)
Definition outputPads (c : t) : result (list string) :=
  match outputNode c with
  | Some n => Ok (FilterNode.outputs n)
  | None => Throw (TypeError "Cannot read properties of undefined (reading 'outputs')")
  end.

(** The function mapped over [this.inputs] in [toString]. *)
Definition bracket (str : string) : string :=
  if startsWith str "[" && endsWith str "]" then str
  else "[" +:+ str +:+ "]".

(** The name given to the output pad at index [i]. *)
Definition padName (prefix : string) (i : nat) : string :=
  "[" +:+ prefix +:+ "_" +:+ decimal i +:+ "]".

Definition renderInputs (c : t) : string :=
  join EmptyString (map (fun i => bracket (FFmpegStreamSpecifier.toString i)) (inputs c)).

Definition renderFilters (c : t) : string :=
  join "," (map FilterNode.toString (nodes c)).

(** [toString()] *)
Definition toString (c : t) : result string :=
  match outputNode c with
  | Some out =>
      let outputs :=
        join EmptyString
          (imap (fun i _p => padName (FilterNode.padPrefix out) i) (FilterNode.outputs out)) in
      Ok (renderInputs c +:+ renderFilters c +:+ outputs)
  | None => Throw (TypeError "Cannot read properties of undefined (reading 'outputs')")
  end.

(** [validateInputs(inputs)]: the validated specifiers and the lines sent
    to [logger.warn].  The identifier [logger] is free in this module and
    resolves to the logger of the global object; the message interpolates
    the chain itself, that is, [this.toString()]. *)
Definition validateInputs (c : t) (inputs : value)
  : result (list FFmpegStreamSpecifier.t * list string) :=
  match inputs with
  | VArray l =>
      if existsb (fun i => negb (isStreamSpecifier i)) l then
        Throw (Error "Invalid inputs specified: all inputs in Array must be FFmpegStreamSpecifier objects")
      else
        pads ← inputPads c;
        let inputsNeeded := length pads in
        let orMore := existsb (fun p => String.eqb p "N") pads in
        let inputsProvided := length (FilterChain.inputs c) + length l in
        if negb orMore && (inputsNeeded <? inputsProvided) then
          Throw (Error ("Too many inputs specified: " +:+ decimal inputsNeeded +:+ " inputs required"))
        else
          warnings ← (if inputsProvided <? inputsNeeded
                      then
                        _ ← resolve module_bindings "logger";
                        text ← toString c;
                        Ok ["Not enough inputs on FilterChain " +:+ text
                            +:+ ": need " +:+ decimal inputsNeeded
                            +:+ " and currently have " +:+ decimal inputsProvided]
                      else Ok []);
          Ok (omap asStreamSpecifier l, warnings)
  | _ =>
      Throw (Error "Invalid argument: inputs must be an Array of FFmpegStreamSpecifier objects")
  end.

(** [addInputs(inputs)]: the chain after the call, and either the lines the
    call sent to [logger.warn] before it returned or what it threw.  The
    assignment to [this.inputs] only happens when validation returns. *)
Definition addInputs (c : t) (inputs : value) : t * result (list string) :=
  match validateInputs c inputs with
  | Ok (validated, warnings) =>
      ({| nodes := nodes c; inputs := FilterChain.inputs c ++ validated |}, Ok warnings)
  | Throw e => (c, Throw e)
  end.

(** [addInput(input)] *)
Definition addInput (c : t) (input : value) : t * result (list string) :=
  addInputs c (VArray [input]).

(** [static wrap(filterNode)] *)
Definition wrap (filterNode : value) : result value :=
  if isFilterNode filterNode then
    c ← constructor (VArray [filterNode]);
    Ok (VFilterChain c)
  else Ok filterNode.

(** A first node declares a finite input arity when none of its input pads
    is the ['N'] descriptor; the arity is then the number of pads. *)
Definition orMore (n : FilterNode.t) : bool :=
  existsb (fun p => String.eqb p "N") (FilterNode.inputs n).

(** The calls that change a chain after its construction. *)
Inductive call : Type :=
  | AppendNodes (more : list FilterNode.t)
  | PrependNodes (more : list FilterNode.t)
  | AddInputs (inputs : value)
  | AddInput (input : value).

(** The chain a call leaves behind, whether it returns or throws. *)
Definition perform (c : t) (k : call) : t :=
  match k with
  | AppendNodes more => appendNodes c more
  | PrependNodes more => prependNodes c more
  | AddInputs inputs => (addInputs c inputs).1
  | AddInput input => (addInput c input).1
  end.

Definition performAll (c : t) (calls : list call) : t := fold_left perform calls c.

(** The names [toString] gives to the output pads of the chain. *)
Definition outputPadNames (c : t) : list string :=
  match outputNode c with
  | Some out => imap (fun i _p => padName (FilterNode.padPrefix out) i) (FilterNode.outputs out)
  | None => []
  end.

End FilterChain.

(** ** The input object, as far as [ffmpeg_command.js] touches it

    [lib/ffmpeg_input.js] is not part of the sources at hand.  The command
    writes the property [inputLabel], reads [url] and calls
    [toCommandArray()], which is a parameter of the development below. *)

Module FFmpegInput.

Record t : Type := mk {
  url : string;
  inputLabel : option nat
}.

Definition setInputLabel (l : nat) (i : t) : t :=
  {| url := url i; inputLabel := Some l |}.

End FFmpegInput.

(** ** [lib/ffmpeg_command.js] *)

Module FFmpegCommand.

(** Objects are passed by reference; [ref] is the identity of an object. *)
Definition ref : Type := nat.

(** Top-level bindings of the module: the [require]s at its head and the
    class it declares. *)
Definition module_bindings : list string :=
  ["EventEmitter"; "config"; "logger"; "cp"; "FFmpegInput"; "FFmpegOutput";
   "FFmpegCommand"].

(** What a caller can pass to the methods of the command. *)
Inductive value : Type :=
  | VUndefined
  | VNull
  | VNumber (n : Z)
  | VString (s : string)
  | VInput (r : ref)
  | VOutput (r : ref)
  | VFilterNode (r : ref)
  | VFilterGraph (r : ref)
  | VArray (elts : list value)
  | VOther (descr : string).

(** The class a value is an instance of, if it is one the command tests for. *)
Definition className (v : value) : option string :=
  match v with
  | VInput _ => Some "FFmpegInput"
  | VOutput _ => Some "FFmpegOutput"
  | VFilterNode _ => Some "FilterNode"
  | VFilterGraph _ => Some "FilterGraph"
  | _ => None
  end.

(** [v instanceof cls], the identifier [cls] being read in this module. *)
Definition instanceof (v : value) (cls : string) : result bool :=
  _ ← resolve module_bindings cls;
  Ok (bool_decide (className v = Some cls)).

(** The value of a global or per-file option, seen through the two things
    the renderer does with it: the test against [null] and [undefined], and
    [String(value)]. *)
Inductive optionValue : Type :=
  | ONull
  | OUndefined
  | OValue (str : string).

(** What [getMappingParameterValue] returns: the array
    [[fromObjInputIndex, fromStreamIndex]], or an output pad name (which is
    [undefined] when the index is outside [outputPadNames]). *)
Inductive mapping : Type :=
  | MapInput (fromObjInputIndex : nat) (fromStreamIndex : value)
  | MapPad (name : option string).

Record t : Type := mk {
  options : list (string * optionValue);
  _inputs : list ref;
  _outputs : list ref;
  _filterGraphs : list value;
  _connections : list (string * list (nat * value))
}.

(** [arr.indexOf(x)]; [None] stands for [-1]. *)
Fixpoint indexOf (arr : list ref) (x : ref) : option nat :=
  match arr with
  | [] => None
  | y :: rest => if Nat.eqb y x then Some 0 else S <$> indexOf rest x
  end.

(** The calls that build a command. *)
Inductive call : Type :=
  | AddInput (input : ref)
  | AddOutput (output : ref) (mappings : value)
  | AddFilterGraph (filterGraph onOutput : value).

(** The input objects a sequence of calls passes to [addInput], in order. *)
Definition inputsAdded (calls : list call) : list ref :=
  omap (fun c => match c with AddInput r => Some r | _ => None end) calls.

(** The outputs a sequence of calls passes to [addOutput], in order. *)
Definition outputsAdded (calls : list call) : list ref :=
  omap (fun c => match c with AddOutput o _ => Some o | _ => None end) calls.

(** The filter graphs a sequence of calls passes to [addFilterGraph], in
    order. *)
Definition filterGraphsAdded (calls : list call) : list value :=
  omap (fun c => match c with AddFilterGraph g _ => Some g | _ => None end) calls.

(** [arr.lastIndexOf(x)]; [None] stands for [-1]. *)
Fixpoint lastIndexOf (arr : list ref) (x : ref) : option nat :=
  match arr with
  | [] => None
  | y :: rest =>
      match lastIndexOf rest x with
      | Some k => Some (S k)
      | None => if Nat.eqb y x then Some 0 else None
      end
  end.


Section Collaborators.

(** The classes [FFmpegOutput], [FilterNode] and [FilterGraph], the method
    [FFmpegInput.toCommandArray] and the configured [ffmpeg_bin] are defined
    outside the sources at hand; the command is embedded over any
    realisation of them. *)
Variable Output : Type.
Variable Filter : Type.
Variable ffmpeg_bin : string.
Variable inputToCommandArray : FFmpegInput.t -> list string.
Variable outputToCommandArray : Output -> list string.
Variable addOptions : Output -> list (string * value) -> Output.
Variable mapTrack : Output -> nat -> mapping -> Output.
Variable outputPadNames : Filter -> list string.
Variable markOutputPadMapped : Filter -> value -> Filter * result unit.

(** The objects reachable from the command and its callers, the command
    itself, and what has been sent to [logger.info]. *)
Record state : Type := mkState {
  cmd : t;
  inputObjs : gmap ref FFmpegInput.t;
  outputObjs : gmap ref Output;
  filterObjs : gmap ref Filter;
  log : list string
}.

Definition info (msg : string) (st : state) : state :=
  {| cmd := cmd st; inputObjs := inputObjs st; outputObjs := outputObjs st;
     filterObjs := filterObjs st; log := log st ++ [msg] |}.

Definition withCmd (c : t) (st : state) : state :=
  {| cmd := c; inputObjs := inputObjs st; outputObjs := outputObjs st;
     filterObjs := filterObjs st; log := log st |}.

Definition withInputObjs (m : gmap ref FFmpegInput.t) (st : state) : state :=
  {| cmd := cmd st; inputObjs := m; outputObjs := outputObjs st;
     filterObjs := filterObjs st; log := log st |}.

Definition withOutputObjs (m : gmap ref Output) (st : state) : state :=
  {| cmd := cmd st; inputObjs := inputObjs st; outputObjs := m;
     filterObjs := filterObjs st; log := log st |}.

Definition withFilterObjs (m : gmap ref Filter) (st : state) : state :=
  {| cmd := cmd st; inputObjs := inputObjs st; outputObjs := outputObjs st;
     filterObjs := m; log := log st |}.

(** [new FFmpegCommand(options)], [options] being a [Map]. *)
Definition constructor (options : list (string * optionValue)) : t :=
  {| options := options; _inputs := []; _outputs := []; _filterGraphs := [];
     _connections := [] |}.

(** [addInput(input)]: the label is written into the object [input] refers
    to, then the reference is pushed. *)
Definition addInput (st : state) (input : ref) : state :=
  let c := cmd st in
  let st1 :=
    withInputObjs
      (alter (FFmpegInput.setInputLabel (length (_inputs c))) input (inputObjs st)) st in
  withCmd {| options := options c; _inputs := _inputs c ++ [input];
             _outputs := _outputs c; _filterGraphs := _filterGraphs c;
             _connections := _connections c |} st1.

(** [arr[i]] for an array of strings. *)
Definition index (arr : list string) (i : value) : option string :=
  match i with
  | VNumber n => if (0 <=? n)%Z then arr !! Z.to_nat n else None
  | _ => None
  end.

(** [fromObject.url] *)
Definition urlOf (st : state) (fromObject : value) : string :=
  match fromObject with
  | VInput r => from_option FFmpegInput.url "undefined" (inputObjs st !! r)
  | _ => "undefined"
  end.

(** [fromObject.toString()] *)
Definition valueToString (v : value) : result string :=
  match v with
  | VUndefined => Throw (TypeError "Cannot read properties of undefined (reading 'toString')")
  | VNull => Throw (TypeError "Cannot read properties of null (reading 'toString')")
  | VString s => Ok s
  | VOther descr => Ok descr
  | _ => Ok "[object Object]"
  end.

Definition showIndex (i : option nat) : string :=
  match i with
  | Some n => decimal n
  | None => "-1"
  end.

(** [getMappingParameterValue(fromObject, fromStreamIndex)] *)
Definition getMappingParameterValue (st : state) (fromObject fromStreamIndex : value)
  : state * result mapping :=
  match instanceof fromObject "FFmpegInput" with
  | Throw e => (st, Throw e)
  | Ok true =>
      let fromObjInputIndex :=
        match fromObject with
        | VInput r => indexOf (_inputs (cmd st)) r
        | _ => None
        end in
      let st1 :=
        info ("Searching for fromObject in command inputs: result = "
              +:+ showIndex fromObjInputIndex) st in
      match fromObjInputIndex with
      | None =>
          (st1, Throw (Error ("Unknown input file specified in output mapping: "
                              +:+ urlOf st fromObject)))
      | Some i => (st1, Ok (MapInput i fromStreamIndex))
      end
  | Ok false =>
      match (isNode ← instanceof fromObject "FilterNode";
             if isNode : bool then Ok true else instanceof fromObject "FilterGraph") with
      | Throw e => (st, Throw e)
      | Ok true =>
          match fromObject with
          | VFilterNode r | VFilterGraph r =>
              match filterObjs st !! r with
              | Some f =>
                  let fromObjectOutputPadName := index (outputPadNames f) fromStreamIndex in
                  let st1 :=
                    info ("Using filter/FilterGraph output pad name for fromObject: result = "
                          +:+ default "undefined" fromObjectOutputPadName) st in
                  let '(f', r') := markOutputPadMapped f fromStreamIndex in
                  let st2 := withFilterObjs (<[r := f']> (filterObjs st1)) st1 in
                  match r' with
                  | Ok _ => (st2, Ok (MapPad fromObjectOutputPadName))
                  | Throw e => (st2, Throw e)
                  end
              | None => (st, Throw (TypeError "Cannot read properties of undefined"))
              end
          | _ => (st, Throw (TypeError "Cannot read properties of undefined"))
          end
      | Ok false =>
          match valueToString fromObject with
          | Ok s =>
              (st, Throw (Error ("Unknown input type specified in output mapping: " +:+ s)))
          | Throw e => (st, Throw e)
          end
      end
  end.

(** The callback of [mappings.map] in [processMappings], run over the
    elements from position [index] on.  The callee [output.mapTrack] is
    evaluated before its arguments. *)
Fixpoint processMappingsFrom (st : state) (index : nat) (mappings : list value)
    (output : option ref) : state * result unit :=
  match mappings with
  | [] => (st, Ok tt)
  | mapping :: rest =>
      match output with
      | None =>
          (st, Throw (TypeError "Cannot read properties of undefined (reading 'mapTrack')"))
      | Some o =>
          match getMappingParameterValue st mapping VUndefined with
          | (st1, Ok m) =>
              let st2 :=
                withOutputObjs (alter (fun out => mapTrack out index m) o (outputObjs st1)) st1 in
              processMappingsFrom st2 (S index) rest output
          | (st1, Throw e) => (st1, Throw e)
          end
      end
  end.

(** [processMappings(mappings, output)]; it returns [output]. *)
Definition processMappings (st : state) (mappings : value) (output : option ref)
  : state * result (option ref) :=
  match mappings with
  | VArray l =>
      match processMappingsFrom st 0 l output with
      | (st1, Ok _) => (st1, Ok output)
      | (st1, Throw e) => (st1, Throw e)
      end
  | _ => (st, Throw (TypeError "mappings.map is not a function"))
  end.

Definition pushOutput (output : ref) (c : t) : t :=
  {| options := options c; _inputs := _inputs c; _outputs := _outputs c ++ [output];
     _filterGraphs := _filterGraphs c; _connections := _connections c |}.

Definition pushFilterGraph (filterGraph : value) (c : t) : t :=
  {| options := options c; _inputs := _inputs c; _outputs := _outputs c;
     _filterGraphs := _filterGraphs c ++ [filterGraph];
     _connections := _connections c |}.

(** [addOutput(output, mappings = null)]: [processMappings] is called with
    one argument, so its parameter [output] is [undefined]. *)
Definition addOutput (st : state) (output : ref) (mappings : value)
  : state * result unit :=
  let st1 := withCmd (pushOutput output (cmd st)) st in
  match mappings with
  | VNull | VUndefined => (st1, Ok tt)
  | _ =>
      match processMappings st1 mappings None with
      | (st2, Ok _) => (st2, Ok tt)
      | (st2, Throw e) => (st2, Throw e)
      end
  end.

(** [addFilterGraph(filterGraph, onOutput = null)] *)
Definition addFilterGraph (st : state) (filterGraph onOutput : value)
  : state * result unit :=
  let st1 := withCmd (pushFilterGraph filterGraph (cmd st)) st in
  match onOutput with
  | VNull | VUndefined => (st1, Ok tt)
  | _ =>
      match instanceof onOutput "FFmpegOutput" with
      | Ok true =>
          match onOutput with
          | VOutput o =>
              (withOutputObjs
                 (alter (fun out => addOptions out [("filter", filterGraph)]) o
                    (outputObjs st1)) st1, Ok tt)
          | _ => (st1, Ok tt)
          end
      | Ok false => (st1, Ok tt)
      | Throw e => (st1, Throw e)
      end
  end.

(** The arguments pushed by the [forEach] over [this.options]. *)
Definition optionArgs (opts : list (string * optionValue)) : list string :=
  flat_map
    (fun '(opt, value) =>
       ("-" +:+ opt) ::
       match value with
       | ONull | OUndefined => []
       | OValue str => [str]
       end)
    opts.

(** [input.toCommandArray()] for each element of [this._inputs], concatenated. *)
Definition inputArgs (st : state) : list string :=
  flat_map (fun r => from_option inputToCommandArray [] (inputObjs st !! r))
    (_inputs (cmd st)).

(** [output.toCommandArray()] for each element of [this._outputs], concatenated. *)
Definition outputArgs (st : state) : list string :=
  flat_map (fun r => from_option outputToCommandArray [] (outputObjs st !! r))
    (_outputs (cmd st)).

(** What the loop headed [// Handle maps] does: it only logs. *)
Definition handleMaps (st : state) : state :=
  fold_left
    (fun s _map =>
       let s1 := info "toCommand(), handling maps:" s in
       let s2 :=
         fold_left (fun s' _ => info "toCommand(), handling maps, inputs loop:" s')
           (_inputs (cmd s1)) s1 in
       fold_left (fun s' _ => info "toCommand(), handling maps, outputs loop:" s')
         (_outputs (cmd s2)) s2)
    (_connections (cmd st)) st.

Record commandLine : Type := mkCommandLine {
  command : string;
  args : list string
}.

(** [toCommand()] *)
Definition toCommand (st : state) : state * commandLine :=
  let args0 := optionArgs (options (cmd st)) in
  let args1 := args0 ++ inputArgs st in
  let st1 := handleMaps st in
  let args2 := args1 ++ outputArgs st1 in
  (st1, {| command := ffmpeg_bin; args := args2 |}).

(** The function mapped over [cmd.args] in [toString]. *)
Definition quoteArg (elt : string) : string :=
  if startsWith elt "-" then elt
  else String dquote (escapeQuotes elt +:+ String dquote EmptyString).

(** [toString()] *)
Definition toString (st : state) : state * string :=
  let '(st1, c) := toCommand st in
  (st1, command c +:+ " " +:+ join " " (map quoteArg (args c))).

(** [inputs()], [outputs()], [filterGraphs()] and [mappedIO()] *)
Definition inputs (st : state) : list ref := _inputs (cmd st).
Definition outputs (st : state) : list ref := _outputs (cmd st).
Definition filterGraphs (st : state) : list value := _filterGraphs (cmd st).
Definition mappedIO (st : state) : list (string * list (nat * value)) :=
  _connections (cmd st).

(** The tracks [processMappings] hands to [mapTrack] when every mapping is
    the input object [r] at position [pos r] of the command: track [k] gets
    the pair of that position and [undefined]. *)
Fixpoint mapTracksFrom (out : Output) (index : nat) (positions : list nat) : Output :=
  match positions with
  | [] => out
  | p :: rest => mapTracksFrom (mapTrack out index (MapInput p VUndefined)) (S index) rest
  end.

(** The state a call leaves behind, whether it returns or throws. *)
Definition perform (st : state) (c : call) : state :=
  match c with
  | AddInput input => addInput st input
  | AddOutput output mappings => (addOutput st output mappings).1
  | AddFilterGraph filterGraph onOutput => (addFilterGraph st filterGraph onOutput).1
  end.

Definition performAll (st : state) (calls : list call) : state :=
  fold_left perform calls st.

(** [input.inputLabel] of the object [r] refers to. *)
Definition labelOf (st : state) (r : ref) : option nat :=
  inputObjs st !! r ≫= FFmpegInput.inputLabel.

(** Every input of the command carries its position as label. *)
Definition labelled (st : state) : Prop :=
  forall k r, _inputs (cmd st) !! k = Some r -> labelOf st r = Some k.

(** The command and the objects of two states are the same; the log may
    differ. *)
Definition sameObjects (st st' : state) : Prop :=
  cmd st' = cmd st /\ inputObjs st' = inputObjs st
  /\ outputObjs st' = outputObjs st /\ filterObjs st' = filterObjs st.

(** The label an input object of the command carries is its last position
    in [_inputs]. *)
Definition lastLabelled (st : state) : Prop :=
  forall r obj,
    inputObjs st !! r = Some obj -> r ∈ _inputs (cmd st) ->
    FFmpegInput.inputLabel obj = lastIndexOf (_inputs (cmd st)) r.

(** The inputs of the command and the input objects are the same. *)
Definition sameInputs (st st' : state) : Prop :=
  _inputs (cmd st') = _inputs (cmd st) /\ inputObjs st' = inputObjs st.

End Collaborators.

Arguments cmd {Output Filter}.
Arguments inputObjs {Output Filter}.
Arguments outputObjs {Output Filter}.
Arguments filterObjs {Output Filter}.
Arguments log {Output Filter}.
Arguments info {Output Filter}.
Arguments withCmd {Output Filter}.
Arguments withInputObjs {Output Filter}.
Arguments withOutputObjs {Output Filter}.
Arguments withFilterObjs {Output Filter}.
Arguments addInput {Output Filter}.
Arguments urlOf {Output Filter}.
Arguments getMappingParameterValue {Output Filter}.
Arguments processMappingsFrom {Output Filter}.
Arguments processMappings {Output Filter}.
Arguments addOutput {Output Filter}.
Arguments addFilterGraph {Output Filter}.
Arguments inputArgs {Output Filter}.
Arguments outputArgs {Output Filter}.
Arguments handleMaps {Output Filter}.
Arguments toCommand {Output Filter}.
Arguments toString {Output Filter}.
Arguments perform {Output Filter}.
Arguments performAll {Output Filter}.
Arguments labelOf {Output Filter}.
Arguments labelled {Output Filter}.
Arguments sameObjects {Output Filter}.
Arguments sameInputs {Output Filter}.
Arguments inputs {Output Filter}.
Arguments outputs {Output Filter}.
Arguments filterGraphs {Output Filter}.
Arguments mappedIO {Output Filter}.
Arguments mapTracksFrom {Output}.
Arguments lastLabelled {Output Filter}.

End FFmpegCommand.

(** ** A realisation of the collaborators, to run the command on inputs *)

Module Realisation.

Import FFmpegCommand.

(** An output file: its url.  Its block is the url alone; options and
    tracks handed to it are not rendered. *)
Definition Output : Type := string.

Definition outputToCommandArray (o : Output) : list string := [o].
Definition addOptions (o : Output) (_ : list (string * value)) : Output := o.
Definition mapTrack (o : Output) (_ : nat) (_ : mapping) : Output := o.

(** An input file renders to [-i url]. *)
Definition inputToCommandArray (i : FFmpegInput.t) : list string :=
  ["-i"; FFmpegInput.url i].

(** Modelled from the spec: the filter objects of [lib/filter_node.js] and
    [lib/filter_graph.js], which are not part of the sources at hand.  A
    graph is an ordered sequence of chains and renders to their texts joined
    by [;] (an empty graph renders to the empty string); it knows the names
    of its output pads and which of them a mapping request has consumed;
    consuming a pad a second time is a fatal mapping error. *)
Record Filter : Type := mkFilter {
  chains : list FilterChain.t;
  outputPadNames : list string;
  outputPadsMapped : list nat
}.

Definition markOutputPadMapped (f : Filter) (i : value) : Filter * result unit :=
  match i with
  | VNumber n =>
      if (0 <=? n)%Z && (Z.to_nat n <? length (outputPadNames f)) then
        if existsb (Nat.eqb (Z.to_nat n)) (outputPadsMapped f) then
          (f, Throw (Error "Output pad is already mapped"))
        else
          ({| chains := chains f; outputPadNames := outputPadNames f;
              outputPadsMapped := Z.to_nat n :: outputPadsMapped f |}, Ok tt)
      else (f, Throw (Error "Output pad index out of range"))
  | _ => (f, Throw (Error "Output pad index out of range"))
  end.

Definition renderGraph (f : Filter) : result string :=
  texts ← mapM FilterChain.toString (chains f);
  Ok (join ";" texts).

Definition ffmpeg_bin : string := "ffmpeg".

Abbreviation state := (FFmpegCommand.state Output Filter).

Definition getMappingParameterValue : state -> value -> value -> state * result mapping :=
  FFmpegCommand.getMappingParameterValue outputPadNames markOutputPadMapped.

Definition addInput : state -> ref -> state := FFmpegCommand.addInput.

Definition addOutput : state -> ref -> value -> state * result unit :=
  FFmpegCommand.addOutput mapTrack outputPadNames markOutputPadMapped.

Definition addFilterGraph : state -> value -> value -> state * result unit :=
  FFmpegCommand.addFilterGraph addOptions.

Definition toCommand : state -> state * commandLine :=
  FFmpegCommand.toCommand ffmpeg_bin inputToCommandArray outputToCommandArray.

Definition toString : state -> state * string :=
  FFmpegCommand.toString ffmpeg_bin inputToCommandArray outputToCommandArray.

(** The scenario of the specification: the input [clip.mov], the output
    [out.mp4] and a one-node [edgedetect] chain, none of them added yet. *)
Definition edgedetect : FilterNode.t :=
  {| FilterNode.toString := "edgedetect"; FilterNode.inputs := ["V"];
     FilterNode.outputs := []; FilterNode.padPrefix := "chain0_edgedetect" |}.

Definition edgedetectChain : FilterChain.t :=
  {| FilterChain.nodes := [edgedetect]; FilterChain.inputs := [] |}.

(** The same filter with its one video output pad, and the chain bound to
    the default track of the first input. *)
Definition edgedetectRequested : FilterNode.t :=
  {| FilterNode.toString := "edgedetect"; FilterNode.inputs := ["V"];
     FilterNode.outputs := ["V"]; FilterNode.padPrefix := "chain0_edgedetect" |}.

(** The chain the constructor makes of that node alone. *)
Definition edgedetectUnbound : FilterChain.t :=
  {| FilterChain.nodes := [edgedetectRequested]; FilterChain.inputs := [] |}.

Definition input0 : FFmpegStreamSpecifier.t := {| FFmpegStreamSpecifier.toString := "0" |}.

Definition edgedetectBound : FilterChain.t :=
  {| FilterChain.nodes := [edgedetectRequested]; FilterChain.inputs := [input0] |}.

Definition graph : Filter :=
  {| chains := [edgedetectChain]; outputPadNames := ["[chain0_edgedetect_0]"];
     outputPadsMapped := [] |}.

Definition fresh : state :=
  {| cmd := constructor [];
     inputObjs :=
       {[ 0 := {| FFmpegInput.url := "clip.mov"; FFmpegInput.inputLabel := None |};
          3 := {| FFmpegInput.url := "intro.mov"; FFmpegInput.inputLabel := None |} ]};
     outputObjs := {[ 1 := "out.mp4" ]};
     filterObjs := {[ 2 := graph ]};
     log := [] |}.

(** [cmd.addInput(clip); cmd.addFilterGraph(graph); cmd.addOutput(out)] *)
Definition scenario : state :=
  (addOutput (addFilterGraph (addInput fresh 0) (VFilterGraph 2) VNull).1 1 VNull).1.

(** A two-input filter, a filter taking any number of inputs, and two
    stream specifiers: one that renders bare, one that renders bracketed. *)
Definition overlay : FilterNode.t :=
  {| FilterNode.toString := "overlay"; FilterNode.inputs := ["V"; "V"];
     FilterNode.outputs := []; FilterNode.padPrefix := "chain0_overlay" |}.

Definition overlayChain : FilterChain.t :=
  {| FilterChain.nodes := [overlay]; FilterChain.inputs := [] |}.

Definition concat : FilterNode.t :=
  {| FilterNode.toString := "concat"; FilterNode.inputs := ["N"];
     FilterNode.outputs := []; FilterNode.padPrefix := "chain0_concat" |}.


Definition video0 : FFmpegStreamSpecifier.t := {| FFmpegStreamSpecifier.toString := "0:v" |}.
Definition video1 : FFmpegStreamSpecifier.t := {| FFmpegStreamSpecifier.toString := "1:v" |}.
Definition padOfChain1 : FFmpegStreamSpecifier.t :=
  {| FFmpegStreamSpecifier.toString := "[chain1_scale_0]" |}.

Definition performAll : state -> list call -> state :=
  FFmpegCommand.performAll addOptions mapTrack outputPadNames markOutputPadMapped.

Definition processMappings : state -> value -> option ref -> state * result (option ref) :=
  FFmpegCommand.processMappings mapTrack outputPadNames markOutputPadMapped.

(** The overlay chain with both its inputs bound. *)
Definition overlayBound : FilterChain.t :=
  {| FilterChain.nodes := [overlay]; FilterChain.inputs := [video0; video1] |}.

(** The argument list the specification describes for a command with no
    global options: the input blocks, [-filter_complex] with the rendered
    graph when a graph is not empty, one [-map] per recorded mapping, the
    output blocks. *)
Definition specifiedArgs (inputBlocks : list string) (graphText : string)
    (maps : list string) (outputBlocks : list string) : list string :=
  inputBlocks
  ++ (if String.eqb graphText EmptyString then [] else ["-filter_complex"; graphText])
  ++ flat_map (fun m => ["-map"; m]) maps
  ++ outputBlocks.

End Realisation.

(** * Properties *)

(** ** Strings *)

Lemma append_cons (a : ascii) (s t : string) : String a s +:+ t = String a (s +:+ t).
Proof. reflexivity. Qed.

Lemma append_empty_r (s : string) : s +:+ EmptyString = s.
Proof.
  induction s as [|a s IH]; [reflexivity |].
  now rewrite append_cons, IH.
Qed.

Lemma endsWith_cons (a : ascii) (s t : string) :
  endsWith s t = true -> endsWith (String a s) t = true.
Proof. intros H. simpl. rewrite H. apply orb_true_r. Qed.

Lemma endsWith_append (s t : string) : endsWith (s +:+ t) t = true.
Proof.
  induction s as [|a s IH].
  - change (EmptyString +:+ t) with t.
    destruct t; simpl; [reflexivity |].
    rewrite Ascii.eqb_refl, String.eqb_refl. reflexivity.
  - rewrite append_cons. apply endsWith_cons, IH.
Qed.

(** ** The definitions on small inputs *)

Example bracket_bare : FilterChain.bracket "0:v" = "[0:v]".
Proof. reflexivity. Qed.

Example bracket_named : FilterChain.bracket "[chain1_scale_0]" = "[chain1_scale_0]".
Proof. reflexivity. Qed.

Example bracket_half_open : FilterChain.bracket "[0:v" = "[[0:v]".
Proof. reflexivity. Qed.

Example toString_bound_chain :
  FilterChain.toString Realisation.edgedetectBound
  = Ok "[0]edgedetect[chain0_edgedetect_0]".
Proof. reflexivity. Qed.

Example toString_bare_chain :
  FilterChain.toString Realisation.edgedetectChain = Ok "edgedetect".
Proof. reflexivity. Qed.

Example constructor_empty :
  FilterChain.constructor (FilterChain.VArray [])
  = Throw (Error "Invalid parameter: nodes Array cannot be empty; it must have at least one FilterNode object").
Proof. reflexivity. Qed.

Example constructor_not_a_node :
  FilterChain.constructor
    (FilterChain.VArray [FilterChain.VFilterNode Realisation.overlay; FilterChain.VOther "42"])
  = Throw (Error "Invalid parameter: nodes Array must contain only FilterNode object").
Proof. reflexivity. Qed.

Example addInputs_not_a_specifier :
  FilterChain.addInputs Realisation.overlayChain
    (FilterChain.VArray [FilterChain.VOther "0:v"; FilterChain.VOther "1:v"])
  = (Realisation.overlayChain,
     Throw (Error "Invalid inputs specified: all inputs in Array must be FFmpegStreamSpecifier objects")).
Proof. reflexivity. Qed.

Example resolve_logger_in_command :
  resolve FFmpegCommand.module_bindings "logger" = Ok tt.
Proof. reflexivity. Qed.

Example resolve_logger_in_chain :
  resolve FilterChain.module_bindings "logger" = Ok tt.
Proof. reflexivity. Qed.

Example toString_scenario :
  (Realisation.toString Realisation.scenario).2
  = "ffmpeg -i " +:+ String dquote ("clip.mov" +:+ String dquote (" "
    +:+ String dquote ("out.mp4" +:+ String dquote EmptyString))).
Proof. vm_compute. reflexivity. Qed.

Example mapping_of_added_input :
  (Realisation.getMappingParameterValue Realisation.scenario
     (FFmpegCommand.VInput 0) (FFmpegCommand.VNumber 1)).2
  = Ok (FFmpegCommand.MapInput 0 (FFmpegCommand.VNumber 1)).
Proof. vm_compute. reflexivity. Qed.

Example mapping_of_foreign_input :
  (Realisation.getMappingParameterValue Realisation.scenario
     (FFmpegCommand.VInput 3) (FFmpegCommand.VNumber 0)).2
  = Throw (Error "Unknown input file specified in output mapping: intro.mov").
Proof. vm_compute. reflexivity. Qed.

(** ** The filter chain *)

Section FilterChainFacts.

Import FilterChain.

Lemma bracket_bracketed (s : string) :
  startsWith s "[" = true -> endsWith s "]" = true -> bracket s = s.
Proof. intros H1 H2. unfold bracket. now rewrite H1, H2. Qed.

Lemma bracket_unbracketed (s : string) :
  startsWith s "[" && endsWith s "]" = false -> bracket s = "[" +:+ s +:+ "]".
Proof. intros H. unfold bracket. now rewrite H. Qed.

Lemma bracket_is_bracketed (s : string) :
  startsWith (bracket s) "[" && endsWith (bracket s) "]" = true.
Proof.
  unfold bracket. destruct (startsWith s "[" && endsWith s "]") eqn:E; [exact E |].
  change ("[" +:+ s +:+ "]") with (String "["%char (s +:+ "]")).
  apply andb_true_intro. split.
  - unfold startsWith. simpl. now destruct (s +:+ "]").
  - apply endsWith_cons, endsWith_append.
Qed.

Lemma bracket_idempotent (s : string) : bracket (bracket s) = bracket s.
Proof.
  pose proof (bracket_is_bracketed s) as H.
  apply andb_prop in H as [H1 H2]. now apply bracket_bracketed.
Qed.

Lemma toString_shape (c : t) (out : FilterNode.t) :
  outputNode c = Some out ->
  toString c =
    Ok (join EmptyString (map (fun i => bracket (FFmpegStreamSpecifier.toString i)) (inputs c))
        +:+ renderFilters c
        +:+ join EmptyString
              (imap (fun i _ => padName (FilterNode.padPrefix out) i) (FilterNode.outputs out))).
Proof. intros H. unfold toString. now rewrite H. Qed.

(** A chain made by the constructor has a first and a last node. *)
Lemma constructor_nodes (v : value) (c : t) :
  constructor v = Ok c -> nodes c <> [] /\ inputs c = [].
Proof.
  destruct v as [| | | l |]; simpl; try discriminate.
  destruct l as [|x l]; simpl; [discriminate |].
  destruct x; simpl; try discriminate.
  destruct (existsb _ l); [discriminate |].
  intros [= <-]. simpl. split; [discriminate | reflexivity].
Qed.

Lemma constructed_outputNode (v : value) (c : t) :
  constructor v = Ok c -> is_Some (outputNode c) /\ is_Some (inputNode c).
Proof.
  intros H. apply constructor_nodes in H as [Hne _].
  unfold outputNode, inputNode. destruct (nodes c) as [|n l]; [congruence |].
  split; [| eexists; reflexivity].
  rewrite last_cons. destruct (last l); eexists; reflexivity.
Qed.

(** Binding inputs leaves the nodes of the chain alone. *)
Lemma addInputs_nodes (c : t) (v : value) : nodes (addInputs c v).1 = nodes c.
Proof. unfold addInputs. now destruct (validateInputs c v) as [[validated warnings] | e]. Qed.

(** A chain with a first node has a last node, and renders. *)
Lemma inputNode_renders (c : t) (n : FilterNode.t) :
  inputNode c = Some n -> exists text, toString c = Ok text.
Proof.
  unfold inputNode, toString, outputNode. intros Hn.
  destruct (last (nodes c)) as [out |] eqn:E; [eexists; reflexivity |].
  apply last_None in E. rewrite E in Hn. discriminate Hn.
Qed.

(** What [validateInputs] returns is the array it was given. *)
Lemma validateInputs_returns (c : t) (v : value)
    (validated : list FFmpegStreamSpecifier.t) (warnings : list string) :
  validateInputs c v = Ok (validated, warnings) ->
  v = VArray (map VStreamSpecifier validated).
Proof.
  unfold validateInputs. destruct v as [| | | l |]; try discriminate.
  destruct (existsb (fun i => negb (isStreamSpecifier i)) l) eqn:El; [discriminate |].
  destruct (inputPads c) as [pads | e]; simpl; [| discriminate].
  destruct (negb _ && _); [discriminate |].
  destruct (_ <? _); simpl.
  - destruct (toString c); simpl; [| discriminate].
    intros [= <- _]. f_equal. clear -El.
    induction l as [|x l IH]; simpl in *; [reflexivity |].
    destruct x; simpl in *; try discriminate. f_equal. apply IH, El.
  - intros [= <- _]. f_equal. clear -El.
    induction l as [|x l IH]; simpl in *; [reflexivity |].
    destruct x; simpl in *; try discriminate. f_equal. apply IH, El.
Qed.

(** [validateInputs] on an array of stream specifiers, case by case. *)
Lemma omap_specifiers (l : list FFmpegStreamSpecifier.t) :
  omap asStreamSpecifier (map VStreamSpecifier l) = l.
Proof. induction l as [|s l IH]; simpl; [reflexivity | f_equal; exact IH]. Qed.

Lemma existsb_specifiers (l : list FFmpegStreamSpecifier.t) :
  existsb (fun i => negb (isStreamSpecifier i)) (map VStreamSpecifier l) = false.
Proof. induction l as [|s l IH]; simpl; [reflexivity | exact IH]. Qed.

(** More specifiers than a finite arity allows: the arity error, and the
    chain is left as it was. *)
Lemma addInputs_too_many (c : t) (n : FilterNode.t) (l : list FFmpegStreamSpecifier.t) :
  inputNode c = Some n ->
  orMore n = false ->
  length (FilterNode.inputs n) < length (inputs c) + length l ->
  addInputs c (VArray (map VStreamSpecifier l)) =
    (c, Throw (Error ("Too many inputs specified: "
                      +:+ decimal (length (FilterNode.inputs n)) +:+ " inputs required"))).
Proof.
  intros Hn Hor Hlt. unfold addInputs, validateInputs, inputPads.
  rewrite existsb_specifiers, Hn. simpl.
  unfold orMore in Hor. rewrite Hor, length_map. simpl.
  apply Nat.ltb_lt in Hlt. now rewrite Hlt.
Qed.

(** Exactly as many specifiers as pads, or more on a chain that takes any
    number: the specifiers are appended. *)
Lemma addInputs_filled (c : t) (n : FilterNode.t) (l : list FFmpegStreamSpecifier.t) :
  inputNode c = Some n ->
  length (FilterNode.inputs n) <= length (inputs c) + length l ->
  orMore n = true \/ length (FilterNode.inputs n) = length (inputs c) + length l ->
  addInputs c (VArray (map VStreamSpecifier l)) =
    ({| nodes := nodes c; inputs := inputs c ++ l |}, Ok []).
Proof.
  intros Hn Hle Hcase. unfold addInputs, validateInputs, inputPads.
  rewrite existsb_specifiers, Hn. simpl. rewrite length_map.
  unfold orMore in Hcase.
  assert (negb (existsb (fun p => String.eqb p "N") (FilterNode.inputs n))
          && (length (FilterNode.inputs n) <? length (inputs c) + length l) = false) as ->.
  { destruct Hcase as [-> | ->]; [reflexivity |].
    rewrite Nat.ltb_irrefl. apply andb_false_r. }
  assert ((length (inputs c) + length l <? length (FilterNode.inputs n)) = false) as ->.
  { apply Nat.ltb_ge. exact Hle. }
  simpl. now rewrite omap_specifiers.
Qed.

(** Fewer specifiers than pads: one line goes to [logger.warn], naming the
    chain as it renders before the call, and the specifiers are appended. *)
Lemma addInputs_under_filled (c : t) (n : FilterNode.t) (l : list FFmpegStreamSpecifier.t) :
  inputNode c = Some n ->
  length (inputs c) + length l < length (FilterNode.inputs n) ->
  exists text,
    toString c = Ok text
    /\ addInputs c (VArray (map VStreamSpecifier l)) =
         ({| nodes := nodes c; inputs := inputs c ++ l |},
          Ok ["Not enough inputs on FilterChain " +:+ text
              +:+ ": need " +:+ decimal (length (FilterNode.inputs n))
              +:+ " and currently have " +:+ decimal (length (inputs c) + length l)]).
Proof.
  intros Hn Hlt. destruct (inputNode_renders c n Hn) as [text Htext].
  exists text. split; [exact Htext |].
  unfold addInputs, validateInputs, inputPads.
  rewrite existsb_specifiers, Hn. simpl. rewrite length_map.
  assert ((length (FilterNode.inputs n) <? length (inputs c) + length l) = false) as ->.
  { apply Nat.ltb_ge. lia. }
  rewrite andb_false_r.
  apply Nat.ltb_lt in Hlt. rewrite Hlt.
  change (resolve module_bindings "logger") with (Ok tt : result unit).
  simpl. rewrite Htext. simpl. now rewrite omap_specifiers.
Qed.

End FilterChainFacts.

(** ** Claims about the filter chain *)

(** C10: [FilterChain.wrap] turns a filter node [n] into a chain whose nodes
    are exactly [[n]] and whose inputs are empty, and returns every other
    argument, an existing chain included, as it is. *)
Theorem wrap_node_or_identity (v : FilterChain.value) :
  match v with
  | FilterChain.VFilterNode n =>
      FilterChain.wrap v =
        Ok (FilterChain.VFilterChain {| FilterChain.nodes := [n]; FilterChain.inputs := [] |})
  | _ => FilterChain.wrap v = Ok v
  end.
Proof. destruct v; reflexivity. Qed.

(** C8: in the rendered text of a chain every bound input is emitted
    through [bracket]: a text that starts with an opening and ends with a
    closing bracket is emitted as it is, any other text is put between one
    pair of brackets; and [bracket] applied twice is [bracket] applied once. *)
Theorem bracket_wrapping (c : FilterChain.t) (out : FilterNode.t) :
  FilterChain.outputNode c = Some out ->
  (exists rest,
     FilterChain.toString c =
       Ok (join EmptyString
             (map (fun i => FilterChain.bracket (FFmpegStreamSpecifier.toString i))
                (FilterChain.inputs c)) +:+ rest))
  /\ (forall str,
        FilterChain.bracket str =
          if startsWith str "[" && endsWith str "]" then str else "[" +:+ str +:+ "]")
  /\ (forall str, FilterChain.bracket (FilterChain.bracket str) = FilterChain.bracket str).
Proof.
  intros Hout. split; [| split].
  - eexists. rewrite (toString_shape c out Hout). reflexivity.
  - reflexivity.
  - apply bracket_idempotent.
Qed.

(** The theorem on an [overlay] chain bound to an input stream and to a
    named pad of another chain. *)
Lemma bracket_wrapping_witness :
  FilterChain.outputNode
    {| FilterChain.nodes := [Realisation.overlay];
       FilterChain.inputs := [Realisation.video0; Realisation.padOfChain1] |}
    = Some Realisation.overlay
  /\ FilterChain.toString
       {| FilterChain.nodes := [Realisation.overlay];
          FilterChain.inputs := [Realisation.video0; Realisation.padOfChain1] |}
     = Ok "[0:v][chain1_scale_0]overlay"
  /\ FilterChain.bracket (FilterChain.bracket "0:v") = FilterChain.bracket "0:v".
Proof.
  split; [reflexivity |].
  destruct (bracket_wrapping
              {| FilterChain.nodes := [Realisation.overlay];
                 FilterChain.inputs := [Realisation.video0; Realisation.padOfChain1] |}
              Realisation.overlay eq_refl) as (_ & _ & Hidem).
  split; [reflexivity | apply Hidem].
Defined.





(** ** The command *)

Section FFmpegCommandFacts.

Import FFmpegCommand.

Variable Output : Type.
Variable Filter : Type.
Variable ffmpeg_bin : string.
Variable inputToCommandArray : FFmpegInput.t -> list string.
Variable outputToCommandArray : Output -> list string.
Variable addOptions : Output -> list (string * value) -> Output.
Variable mapTrack : Output -> nat -> mapping -> Output.
Variable outputPadNames : Filter -> list string.
Variable markOutputPadMapped : Filter -> value -> Filter * result unit.

Abbreviation state := (FFmpegCommand.state Output Filter).
Abbreviation getMappingParameterValue :=
  (@FFmpegCommand.getMappingParameterValue Output Filter outputPadNames markOutputPadMapped).
Abbreviation processMappingsFrom :=
  (@FFmpegCommand.processMappingsFrom Output Filter mapTrack outputPadNames markOutputPadMapped).
Abbreviation addInput := (@FFmpegCommand.addInput Output Filter).
Abbreviation addOutput :=
  (@FFmpegCommand.addOutput Output Filter mapTrack outputPadNames markOutputPadMapped).
Abbreviation addFilterGraph := (@FFmpegCommand.addFilterGraph Output Filter addOptions).
Abbreviation toCommand :=
  (@FFmpegCommand.toCommand Output Filter ffmpeg_bin inputToCommandArray outputToCommandArray).
Abbreviation toString :=
  (@FFmpegCommand.toString Output Filter ffmpeg_bin inputToCommandArray outputToCommandArray).
Abbreviation perform :=
  (@FFmpegCommand.perform Output Filter addOptions mapTrack outputPadNames markOutputPadMapped).
Abbreviation performAll :=
  (@FFmpegCommand.performAll Output Filter addOptions mapTrack outputPadNames markOutputPadMapped).
Abbreviation inputArgs := (@FFmpegCommand.inputArgs Output Filter inputToCommandArray).
Abbreviation outputArgs := (@FFmpegCommand.outputArgs Output Filter outputToCommandArray).
Abbreviation handleMaps := (@FFmpegCommand.handleMaps Output Filter).
Abbreviation info := (@FFmpegCommand.info Output Filter).
Abbreviation labelOf := (@FFmpegCommand.labelOf Output Filter).
Abbreviation labelled := (@FFmpegCommand.labelled Output Filter).
Abbreviation sameObjects := (@FFmpegCommand.sameObjects Output Filter).
Abbreviation sameInputs := (@FFmpegCommand.sameInputs Output Filter).

(** *** Resolution of the class names *)

Lemma instanceof_FFmpegInput (v : value) :
  instanceof v "FFmpegInput" = Ok (match v with VInput _ => true | _ => false end).
Proof. destruct v; reflexivity. Qed.

Lemma instanceof_FilterNode (v : value) :
  instanceof v "FilterNode" = Throw (ReferenceError "FilterNode").
Proof. reflexivity. Qed.

(** *** [getMappingParameterValue] *)

(** Closes a goal [forall r, v <> VInput r] for a [v] of another shape. *)
Ltac not_an_input := let r := fresh "r" in intros r; discriminate.

Lemma mapping_of_input (st : state) (r : ref) (i : value) :
  getMappingParameterValue st (VInput r) i =
    (info ("Searching for fromObject in command inputs: result = "
           +:+ showIndex (indexOf (_inputs (cmd st)) r)) st,
     match indexOf (_inputs (cmd st)) r with
     | Some k => Ok (MapInput k i)
     | None =>
         Throw (Error ("Unknown input file specified in output mapping: "
                       +:+ urlOf st (VInput r)))
     end).
Proof.
  unfold FFmpegCommand.getMappingParameterValue. rewrite instanceof_FFmpegInput.
  now destruct (indexOf (_inputs (cmd st)) r).
Qed.

Lemma mapping_of_other (st : state) (v i : value) :
  (forall r, v <> VInput r) ->
  getMappingParameterValue st v i = (st, Throw (ReferenceError "FilterNode")).
Proof.
  intros Hv. unfold FFmpegCommand.getMappingParameterValue.
  rewrite instanceof_FFmpegInput, instanceof_FilterNode.
  destruct v; try reflexivity. now destruct (Hv r).
Qed.

Lemma indexOf_Some (arr : list ref) (x : ref) (k : nat) :
  indexOf arr x = Some k <->
  arr !! k = Some x /\ forall j, j < k -> arr !! j <> Some x.
Proof.
  revert k. induction arr as [|y arr IH]; intros k; simpl.
  - split; [discriminate | intros [H _]; discriminate].
  - destruct (Nat.eqb_spec y x) as [-> | Hne].
    + split.
      * intros [= <-]. split; [reflexivity | intros j Hj; lia].
      * intros [Hk Hmin]. destruct k as [|k]; [reflexivity |].
        now destruct (Hmin 0 ltac:(lia)).
    + destruct (indexOf arr x) as [k' |] eqn:E; simpl.
      * split.
        -- intros [= <-]. destruct (proj1 (IH k') eq_refl) as [Hk Hmin].
           split; [exact Hk |]. intros [|j] Hj; simpl; [congruence | apply Hmin; lia].
        -- intros [Hk Hmin]. destruct k as [|k]; simpl in Hk; [congruence |].
           assert (Some k' = Some k) as [= ->]; [| reflexivity].
           apply IH. split; [exact Hk |].
           intros j Hj. apply (Hmin (S j)). lia.
      * split; [discriminate |].
        intros [Hk Hmin]. destruct k as [|k]; simpl in Hk; [congruence |].
        assert (None = Some k) as Habs; [| discriminate Habs].
        apply IH. split; [exact Hk |]. intros j Hj. apply (Hmin (S j)). lia.
Qed.

Lemma indexOf_None (arr : list ref) (x : ref) :
  indexOf arr x = None <-> x ∉ arr.
Proof.
  induction arr as [|y arr IH]; simpl.
  - split; [intros _; apply not_elem_of_nil | reflexivity].
  - destruct (Nat.eqb_spec y x) as [-> | Hne].
    + split; [discriminate | intros H; destruct H; left].
    + rewrite not_elem_of_cons. destruct (indexOf arr x); simpl.
      * split; [discriminate |]. intros [_ H]. now apply IH in H.
      * split; [| reflexivity]. intros _. split; [congruence | now apply IH].
Qed.

(** *** What rendering leaves untouched *)

Lemma sameObjects_refl (st : state) : sameObjects st st.
Proof. repeat split. Qed.

Lemma sameObjects_trans (st1 st2 st3 : state) :
  sameObjects st1 st2 -> sameObjects st2 st3 -> sameObjects st1 st3.
Proof.
  intros (H1 & H2 & H3 & H4) (K1 & K2 & K3 & K4).
  repeat split; congruence.
Qed.

Lemma info_same (msg : string) (st : state) : sameObjects st (info msg st).
Proof. repeat split. Qed.

Lemma fold_left_same {A : Type} (f : state -> A -> state) (l : list A) (st : state) :
  (forall s a, sameObjects s (f s a)) -> sameObjects st (fold_left f l st).
Proof.
  intros Hf. revert st. induction l as [|a l IH]; intros st; simpl.
  - apply sameObjects_refl.
  - eapply sameObjects_trans; [apply Hf | apply IH].
Qed.

Lemma handleMaps_same (st : state) : sameObjects st (handleMaps st).
Proof.
  unfold FFmpegCommand.handleMaps. apply fold_left_same. intros s _map.
  cbv zeta.
  set (s1 := info "toCommand(), handling maps:" s).
  set (s2 := fold_left _ (_inputs (cmd s1)) s1).
  apply (sameObjects_trans s s1); [apply info_same |].
  apply (sameObjects_trans s1 s2); apply fold_left_same; intros; apply info_same.
Qed.

Lemma inputArgs_same (st st' : state) :
  sameObjects st st' -> inputArgs st' = inputArgs st.
Proof.
  intros (H1 & H2 & _). unfold FFmpegCommand.inputArgs. now rewrite H1, H2.
Qed.

Lemma outputArgs_same (st st' : state) :
  sameObjects st st' -> outputArgs st' = outputArgs st.
Proof.
  intros (H1 & _ & H3 & _). unfold FFmpegCommand.outputArgs. now rewrite H1, H3.
Qed.

Lemma toCommand_same (st : state) : sameObjects st (toCommand st).1.
Proof. apply handleMaps_same. Qed.

Lemma toCommand_line (st : state) :
  (toCommand st).2 =
    {| command := ffmpeg_bin;
       args := optionArgs (options (cmd st)) ++ inputArgs st ++ outputArgs st |}.
Proof.
  unfold FFmpegCommand.toCommand. simpl.
  now rewrite (outputArgs_same st (handleMaps st) (handleMaps_same st)), app_assoc.
Qed.

Lemma toCommand_of_same (st st' : state) :
  sameObjects st st' -> (toCommand st').2 = (toCommand st).2.
Proof.
  intros H. rewrite !toCommand_line.
  rewrite (inputArgs_same _ _ H), (outputArgs_same _ _ H).
  destruct H as (-> & _). reflexivity.
Qed.

Lemma optionArgs_app (opts1 opts2 : list (string * optionValue)) :
  optionArgs (opts1 ++ opts2) = optionArgs opts1 ++ optionArgs opts2.
Proof. unfold optionArgs. apply flat_map_app. Qed.

(** *** What adding outputs and filter graphs leaves untouched *)

Lemma sameInputs_refl (st : state) : sameInputs st st.
Proof. split; reflexivity. Qed.

Lemma sameInputs_trans (st1 st2 st3 : state) :
  sameInputs st1 st2 -> sameInputs st2 st3 -> sameInputs st1 st3.
Proof. intros [H1 H2] [K1 K2]. split; congruence. Qed.

Lemma mapping_sameInputs (st : state) (v i : value) :
  sameInputs st (getMappingParameterValue st v i).1.
Proof.
  destruct v;
    try (rewrite mapping_of_other; [apply sameInputs_refl | not_an_input]).
  rewrite mapping_of_input. split; reflexivity.
Qed.

Lemma processMappingsFrom_sameInputs (l : list value) (st : state) (k : nat)
    (output : option ref) :
  sameInputs st (processMappingsFrom st k l output).1.
Proof.
  revert st k. induction l as [|m l IH]; intros st k; simpl.
  - apply sameInputs_refl.
  - destruct output as [o |]; [| apply sameInputs_refl].
    pose proof (mapping_sameInputs st m VUndefined) as Hm.
    destruct (getMappingParameterValue st m VUndefined) as [st1 [mv | e]]; simpl in *.
    + eapply sameInputs_trans; [| apply IH].
      eapply sameInputs_trans; [exact Hm | split; reflexivity].
    + exact Hm.
Qed.

Lemma addOutput_sameInputs (st : state) (output : ref) (mappings : value) :
  sameInputs st (addOutput st output mappings).1.
Proof.
  unfold FFmpegCommand.addOutput, FFmpegCommand.processMappings.
  destruct mappings; try (split; reflexivity).
  match goal with
  | |- context [processMappingsFrom ?s ?k ?l ?o] =>
      pose proof (processMappingsFrom_sameInputs l s k o) as H;
      destruct (processMappingsFrom s k l o) as [st2 [u | e]]
  end; simpl in *; (eapply sameInputs_trans; [| exact H]); split; reflexivity.
Qed.

Lemma addFilterGraph_sameInputs (st : state) (filterGraph onOutput : value) :
  sameInputs st (addFilterGraph st filterGraph onOutput).1.
Proof.
  unfold FFmpegCommand.addFilterGraph.
  destruct onOutput; split; reflexivity.
Qed.

(** *** Labels *)

Lemma addInput_inputs (st : state) (r : ref) :
  _inputs (cmd (addInput st r)) = _inputs (cmd st) ++ [r].
Proof. reflexivity. Qed.

Lemma addInput_label_self (st : state) (r : ref) :
  is_Some (inputObjs st !! r) ->
  labelOf (addInput st r) r = Some (length (_inputs (cmd st))).
Proof.
  intros [i Hi]. unfold FFmpegCommand.labelOf, FFmpegCommand.addInput. simpl.
  rewrite lookup_alter_eq, Hi. reflexivity.
Qed.

Lemma addInput_label_other (st : state) (r r' : ref) :
  r <> r' -> labelOf (addInput st r) r' = labelOf st r'.
Proof.
  intros Hne. unfold FFmpegCommand.labelOf, FFmpegCommand.addInput. simpl.
  now rewrite lookup_alter_ne.
Qed.

Lemma addInput_dom (st : state) (r r' : ref) :
  is_Some (inputObjs st !! r') -> is_Some (inputObjs (addInput st r) !! r').
Proof.
  intros H. unfold FFmpegCommand.addInput. simpl.
  destruct (decide (r = r')) as [-> | Hne].
  - rewrite lookup_alter_eq. destruct H as [i ->]. eexists. reflexivity.
  - now rewrite lookup_alter_ne.
Qed.

Lemma perform_sameInputs (st : state) (c : call) :
  (forall r, c <> AddInput r) -> sameInputs st (perform st c).
Proof.
  intros Hc. destruct c as [r | o m | g o]; simpl.
  - now destruct (Hc r).
  - apply addOutput_sameInputs.
  - apply addFilterGraph_sameInputs.
Qed.

Lemma labelled_sameInputs (st st' : state) :
  sameInputs st st' -> labelled st -> labelled st'.
Proof.
  intros [H1 H2] Hl k r. unfold FFmpegCommand.labelOf. rewrite H1, H2. apply Hl.
Qed.

Lemma addInput_labelled (st : state) (r : ref) :
  labelled st -> r ∉ _inputs (cmd st) -> is_Some (inputObjs st !! r) ->
  labelled (addInput st r).
Proof.
  intros Hl Hfresh Hdom k r'. rewrite addInput_inputs.
  intros Hk. apply lookup_app_Some in Hk as [Hk | [Hle Hk]].
  - assert (r <> r') as Hne.
    { intros ->. apply Hfresh. eapply list_elem_of_lookup_2. exact Hk. }
    rewrite addInput_label_other; [apply Hl, Hk | exact Hne].
  - destruct (k - length (_inputs (cmd st))) as [|j] eqn:E; simpl in Hk; [| discriminate].
    injection Hk as <-. rewrite addInput_label_self; [f_equal; lia | exact Hdom].
Qed.

Lemma performAll_labelled (calls : list call) (st : state) :
  labelled st ->
  NoDup (_inputs (cmd st) ++ inputsAdded calls) ->
  (forall r, r ∈ inputsAdded calls -> is_Some (inputObjs st !! r)) ->
  _inputs (cmd (performAll st calls)) = _inputs (cmd st) ++ inputsAdded calls
  /\ labelled (performAll st calls).
Proof.
  revert st. induction calls as [|c calls IH]; intros st Hl Hnd Hdom.
  - simpl. rewrite app_nil_r. split; [reflexivity | exact Hl].
  - destruct c as [r | o m | g o].
    + change (inputsAdded (AddInput r :: calls)) with (r :: inputsAdded calls) in *.
      change (performAll st (AddInput r :: calls)) with (performAll (addInput st r) calls).
      assert (r ∉ _inputs (cmd st)) as Hfresh.
      { apply NoDup_app in Hnd as (_ & Hdisj & _). intros Hin.
        apply (Hdisj r Hin). left. }
      destruct (IH (addInput st r)) as [Hin Hlab].
      * apply addInput_labelled; [exact Hl | exact Hfresh | apply Hdom; left].
      * rewrite addInput_inputs, <- app_assoc. exact Hnd.
      * intros r' Hr'. apply addInput_dom, Hdom. now right.
      * split; [| exact Hlab].
        rewrite Hin, addInput_inputs, <- app_assoc. reflexivity.
    + change (inputsAdded (AddOutput o m :: calls)) with (inputsAdded calls) in *.
      change (performAll st (AddOutput o m :: calls))
        with (performAll (perform st (AddOutput o m)) calls).
      pose proof (perform_sameInputs st (AddOutput o m) ltac:(discriminate)) as [H1 H2].
      destruct (IH (perform st (AddOutput o m))) as [Hin Hlab].
      * eapply labelled_sameInputs; [split; [exact H1 | exact H2] | exact Hl].
      * rewrite H1. exact Hnd.
      * intros r' Hr'. rewrite H2. now apply Hdom.
      * split; [| exact Hlab]. now rewrite Hin, H1.
    + change (inputsAdded (AddFilterGraph g o :: calls)) with (inputsAdded calls) in *.
      change (performAll st (AddFilterGraph g o :: calls))
        with (performAll (perform st (AddFilterGraph g o)) calls).
      pose proof (perform_sameInputs st (AddFilterGraph g o) ltac:(discriminate)) as [H1 H2].
      destruct (IH (perform st (AddFilterGraph g o))) as [Hin Hlab].
      * eapply labelled_sameInputs; [split; [exact H1 | exact H2] | exact Hl].
      * rewrite H1. exact Hnd.
      * intros r' Hr'. rewrite H2. now apply Hdom.
      * split; [| exact Hlab]. now rewrite Hin, H1.
Qed.

Lemma inputsAdded_app (calls1 calls2 : list call) :
  inputsAdded (calls1 ++ calls2) = inputsAdded calls1 ++ inputsAdded calls2.
Proof. unfold inputsAdded. apply omap_app. Qed.

(** *** Claims about the command *)

(** C1, as the code has it: [toCommand()] returns the configured executable
    and an argument list made of the global options as [-key [value]] in
    insertion order, then the block of each input in insertion order, then
    the block of each output in insertion order, and nothing else: the
    filter graphs and the connections of the command contribute no
    argument. *)
Theorem toCommand_options_inputs_outputs (st : state) :
  (toCommand st).2 =
    {| command := ffmpeg_bin;
       args :=
         flat_map
           (fun '(opt, value) =>
              ("-" +:+ opt) ::
              match value with
              | ONull | OUndefined => []
              | OValue str => [str]
              end)
           (options (cmd st))
         ++ flat_map (fun r => from_option inputToCommandArray [] (inputObjs st !! r))
              (_inputs (cmd st))
         ++ flat_map (fun r => from_option outputToCommandArray [] (outputObjs st !! r))
              (_outputs (cmd st)) |}.
Proof. apply toCommand_line. Qed.

(** C3, as the code has it: starting from a command without inputs, after
    any sequence of [addInput], [addOutput] and [addFilterGraph] calls in
    which no input object is passed to [addInput] twice, the inputs of the
    command are the objects passed to [addInput], in order, and the k-th of
    them carries the label k, both right after the calls made so far and
    after any further such calls. *)
Theorem distinct_inputs_keep_their_labels (st : state) (before after : list call) :
  _inputs (cmd st) = [] ->
  NoDup (inputsAdded (before ++ after)) ->
  (forall r, r ∈ inputsAdded (before ++ after) -> is_Some (inputObjs st !! r)) ->
  _inputs (cmd (performAll st before)) = inputsAdded before
  /\ forall k r,
       inputsAdded before !! k = Some r ->
       labelOf (performAll st before) r = Some k
       /\ labelOf (performAll st (before ++ after)) r = Some k.
Proof.
  intros Hempty Hnd Hdom.
  assert (labelled st) as Hl.
  { intros k r. rewrite Hempty. discriminate. }
  rewrite inputsAdded_app in Hnd, Hdom.
  destruct (performAll_labelled before st) as [Hin1 Hlab1].
  { exact Hl. }
  { rewrite Hempty. simpl. now apply NoDup_app in Hnd as (? & _). }
  { intros r Hr. apply Hdom, elem_of_app. now left. }
  destruct (performAll_labelled (before ++ after) st) as [Hin2 Hlab2].
  { exact Hl. }
  { rewrite Hempty, inputsAdded_app. exact Hnd. }
  { intros r Hr. apply Hdom. now rewrite <- inputsAdded_app. }
  rewrite Hempty in Hin1, Hin2. simpl in Hin1, Hin2.
  split; [exact Hin1 |].
  intros k r Hk. split.
  - apply Hlab1. now rewrite Hin1.
  - apply Hlab2. rewrite Hin2, inputsAdded_app. now apply lookup_app_l_Some.
Qed.

(** C4, on the code: a mapping request for an output pad of a filter node or
    of a filter graph never reaches [markOutputPadMapped].  The test
    [fromObject instanceof FilterNode] reads an identifier that has no
    binding in [ffmpeg_command.js]; the call ends in a ReferenceError and
    leaves every object as it was, so a second request for the same pad ends
    the same way.  Through [addOutput], the first mapping already fails on
    [output.mapTrack], [output] being [undefined] there. *)
Theorem filter_pad_mapping_never_marks (st : state) (r : ref) (i : value)
    (output : ref) (rest : list value) :
  getMappingParameterValue st (VFilterNode r) i = (st, Throw (ReferenceError "FilterNode"))
  /\ getMappingParameterValue st (VFilterGraph r) i = (st, Throw (ReferenceError "FilterNode"))
  /\ (let st1 := (getMappingParameterValue st (VFilterNode r) i).1 in
      getMappingParameterValue st1 (VFilterNode r) i
      = (st, Throw (ReferenceError "FilterNode")))
  /\ (addOutput st output (VArray (VFilterNode r :: rest))).2
     = Throw (TypeError "Cannot read properties of undefined (reading 'mapTrack')").
Proof.
  assert (forall s, getMappingParameterValue s (VFilterNode r) i
                    = (s, Throw (ReferenceError "FilterNode"))) as Hnode.
  { intros s. apply mapping_of_other. not_an_input. }
  split; [apply Hnode |]. split.
  { apply mapping_of_other. not_an_input. }
  split; [| reflexivity].
  cbv zeta. rewrite Hnode. simpl. apply Hnode.
Qed.

(** C5, on the code: for an input object the result is decided by
    [indexOf]: the pair of its position in [_inputs] and the stream index
    when it is there, the unknown-input-file error when it is not; for a
    value of any other class the call does not reach the unknown-input-type
    error: it ends in the ReferenceError of the unbound [FilterNode]. *)
Theorem mapping_parameter_by_source (st : state) (r : ref) (i : value)
    (descr : string) :
  (getMappingParameterValue st (VInput r) i).2
  = match indexOf (_inputs (cmd st)) r with
    | Some k => Ok (MapInput k i)
    | None =>
        Throw (Error ("Unknown input file specified in output mapping: "
                      +:+ urlOf st (VInput r)))
    end
  /\ getMappingParameterValue st (VOther descr) i
     = (st, Throw (ReferenceError "FilterNode"))
  /\ getMappingParameterValue st (VString descr) i
     = (st, Throw (ReferenceError "FilterNode")).
Proof.
  split; [| split].
  - now rewrite mapping_of_input.
  - apply mapping_of_other. not_an_input.
  - apply mapping_of_other. not_an_input.
Qed.

(** C9: [toCommand()] and [toString()] leave the command and every object
    as they were, and a second call right after the first returns the same
    result. *)
Theorem rendering_is_repeatable (st : state) :
  sameObjects st (toCommand st).1
  /\ (toCommand (toCommand st).1).2 = (toCommand st).2
  /\ sameObjects st (toString st).1
  /\ (toString (toString st).1).2 = (toString st).2.
Proof.
  assert (forall s, (toString s).1 = (toCommand s).1) as Hst.
  { intros s. unfold FFmpegCommand.toString. now destruct (toCommand s). }
  assert (forall s,
            (toString s).2 =
              command (toCommand s).2 +:+ " "
              +:+ join " " (map quoteArg (args (toCommand s).2))) as Hstr.
  { intros s. unfold FFmpegCommand.toString. now destruct (toCommand s). }
  split; [apply toCommand_same |]. split.
  { apply toCommand_of_same, toCommand_same. }
  split.
  { rewrite Hst. apply toCommand_same. }
  rewrite !Hstr, Hst.
  now rewrite (toCommand_of_same st (toCommand st).1 (toCommand_same st)).
Qed.

(** C2, as the code has it: a chain without bound inputs renders with no
    bracketed name before its filters: its text is the texts of its filters
    joined by commas, followed by one bracketed name for each output pad of
    its last node, whether or not anything asked for that pad, and so is the
    filters alone only when the last node has no output pad.  The rendered
    command takes nothing from chains or graphs: a text is one of its
    arguments exactly when it is an option argument or stands in the block
    of one of its inputs or outputs, so neither a generated name nor [-map]
    enters the list unless one of these holds it. *)
Theorem unbound_chain_renders_filters_and_pads (c : FilterChain.t) (out : FilterNode.t)
    (st : state) (a : string) :
  FilterChain.inputs c = [] ->
  FilterChain.outputNode c = Some out ->
  FilterChain.toString c =
    Ok (join "," (map FilterNode.toString (FilterChain.nodes c))
        +:+ join EmptyString
              (imap (fun i _ => FilterChain.padName (FilterNode.padPrefix out) i)
                 (FilterNode.outputs out)))
  /\ (FilterNode.outputs out = [] ->
      FilterChain.toString c = Ok (join "," (map FilterNode.toString (FilterChain.nodes c))))
  /\ (a ∈ args (toCommand st).2 <->
      a ∈ optionArgs (options (cmd st))
      \/ (exists r input,
            r ∈ _inputs (cmd st) /\ inputObjs st !! r = Some input
            /\ a ∈ inputToCommandArray input)
      \/ (exists r output,
            r ∈ _outputs (cmd st) /\ outputObjs st !! r = Some output
            /\ a ∈ outputToCommandArray output)).
Proof.
  intros Hin Hout.
  assert (FilterChain.toString c =
            Ok (join "," (map FilterNode.toString (FilterChain.nodes c))
                +:+ join EmptyString
                      (imap (fun i _ => FilterChain.padName (FilterNode.padPrefix out) i)
                         (FilterNode.outputs out)))) as Htext.
  { rewrite (toString_shape c out Hout), Hin. reflexivity. }
  split; [exact Htext |]. split.
  - intros Hpads. rewrite Htext, Hpads. simpl. now rewrite append_empty_r.
  - rewrite toCommand_line. simpl. rewrite !elem_of_app. split.
    + intros [Ha | [Ha | Ha]].
      * now left.
      * right. left. unfold FFmpegCommand.inputArgs in Ha.
        apply list_elem_of_In, in_flat_map in Ha as (r & Hr & Ha).
        apply list_elem_of_In in Hr, Ha.
        destruct (inputObjs st !! r) as [input |] eqn:E; simpl in Ha.
        -- exists r, input. now repeat split.
        -- now apply elem_of_nil in Ha.
      * right. right. unfold FFmpegCommand.outputArgs in Ha.
        apply list_elem_of_In, in_flat_map in Ha as (r & Hr & Ha).
        apply list_elem_of_In in Hr, Ha.
        destruct (outputObjs st !! r) as [output |] eqn:E; simpl in Ha.
        -- exists r, output. now repeat split.
        -- now apply elem_of_nil in Ha.
    + intros [Ha | [(r & input & Hr & Hobj & Ha) | (r & output & Hr & Hobj & Ha)]].
      * now left.
      * right. left. unfold FFmpegCommand.inputArgs.
        apply list_elem_of_In, in_flat_map. exists r.
        split; [now apply list_elem_of_In |]. rewrite Hobj. simpl.
        now apply list_elem_of_In.
      * right. right. unfold FFmpegCommand.outputArgs.
        apply list_elem_of_In, in_flat_map. exists r.
        split; [now apply list_elem_of_In |]. rewrite Hobj. simpl.
        now apply list_elem_of_In.
Qed.

End FFmpegCommandFacts.

(** ** The claims on the scenario of the specification *)

Section Scenario.

Import FFmpegCommand.

(** C1 fails on the code: the command of the scenario has one input, one
    filter graph that renders to [edgedetect] and one output; the
    specification asks for [-filter_complex edgedetect] between the block of
    the input and the block of the output, and [toCommand()] returns the two
    blocks alone. *)
Lemma toCommand_omits_filter_complex :
  Realisation.renderGraph Realisation.graph = Ok "edgedetect"
  /\ _filterGraphs (cmd Realisation.scenario) = [VFilterGraph 2]
  /\ args (Realisation.toCommand Realisation.scenario).2 = ["-i"; "clip.mov"; "out.mp4"]
  /\ args (Realisation.toCommand Realisation.scenario).2
     <> Realisation.specifiedArgs ["-i"; "clip.mov"] "edgedetect" [] ["out.mp4"].
Proof.
  split; [reflexivity |]. split; [reflexivity |]. split; [vm_compute; reflexivity |].
  vm_compute. discriminate.
Qed.

(** C3 fails on the code: the same input object is passed to [addInput]
    twice.  After the first call it carries the label 0; the second call
    writes the label 1 into it, so the input added first no longer carries
    its position. *)
Lemma same_input_added_twice_is_relabelled :
  labelOf (Realisation.addInput Realisation.fresh 0) 0 = Some 0
  /\ labelOf (Realisation.addInput (Realisation.addInput Realisation.fresh 0) 0) 0 = Some 1
  /\ ~ labelled (Realisation.addInput (Realisation.addInput Realisation.fresh 0) 0).
Proof.
  split; [vm_compute; reflexivity |]. split; [vm_compute; reflexivity |].
  intros H. specialize (H 0 0 eq_refl). vm_compute in H. discriminate H.
Qed.

(** The theorem on two inputs added around a filter graph, followed by two
    [addOutput] calls of which the second throws. *)
Lemma distinct_inputs_keep_their_labels_witness :
  _inputs (cmd Realisation.fresh) = []
  /\ labelOf
       (performAll Realisation.addOptions Realisation.mapTrack Realisation.outputPadNames
          Realisation.markOutputPadMapped Realisation.fresh
          [AddInput 0; AddFilterGraph (VFilterGraph 2) VNull; AddInput 3]) 3 = Some 1
  /\ labelOf
       (performAll Realisation.addOptions Realisation.mapTrack Realisation.outputPadNames
          Realisation.markOutputPadMapped Realisation.fresh
          ([AddInput 0; AddFilterGraph (VFilterGraph 2) VNull; AddInput 3]
           ++ [AddOutput 1 VNull; AddOutput 1 (VArray [VInput 3])])) 3 = Some 1.
Proof.
  split; [reflexivity |].
  refine (proj2
            (distinct_inputs_keep_their_labels Realisation.Output Realisation.Filter
               Realisation.addOptions Realisation.mapTrack Realisation.outputPadNames
               Realisation.markOutputPadMapped Realisation.fresh
               [AddInput 0; AddFilterGraph (VFilterGraph 2) VNull; AddInput 3]
               [AddOutput 1 VNull; AddOutput 1 (VArray [VInput 3])] eq_refl _ _)
            1 3 eq_refl).
  - apply (bool_decide_unpack _). vm_compute. exact I.
  - intros r Hr.
    apply elem_of_cons in Hr as [-> | Hr]; [vm_compute; eauto |].
    apply elem_of_cons in Hr as [-> | Hr]; [vm_compute; eauto |].
    now apply elem_of_nil in Hr.
Defined.

(** C2 fails on the code: a chain is constructed from the [edgedetect] node
    with its one output pad; nothing is bound to it and nothing asks for a
    stream specifier of it.  The claim gives its text as [edgedetect]; the
    chain renders with the name of the pad after the filter. *)
Lemma unrequested_pad_is_named :
  FilterChain.constructor
    (FilterChain.VArray [FilterChain.VFilterNode Realisation.edgedetectRequested])
  = Ok Realisation.edgedetectUnbound
  /\ FilterChain.inputs Realisation.edgedetectUnbound = []
  /\ FilterChain.toString Realisation.edgedetectUnbound
     = Ok "edgedetect[chain0_edgedetect_0]"
  /\ FilterChain.toString Realisation.edgedetectUnbound <> Ok "edgedetect".
Proof.
  split; [reflexivity |]. split; [reflexivity |]. split; [reflexivity |].
  vm_compute. discriminate.
Qed.

(** The theorem on that chain and on the command of the scenario, whose
    options and blocks hold no [-map]. *)
Lemma unbound_chain_renders_filters_and_pads_witness :
  FilterChain.inputs Realisation.edgedetectUnbound = []
  /\ FilterChain.outputNode Realisation.edgedetectUnbound
     = Some Realisation.edgedetectRequested
  /\ FilterChain.toString Realisation.edgedetectUnbound
     = Ok "edgedetect[chain0_edgedetect_0]"
  /\ ~ "-map" ∈ args (Realisation.toCommand Realisation.scenario).2.
Proof.
  split; [reflexivity |]. split; [reflexivity |].
  destruct (unbound_chain_renders_filters_and_pads Realisation.Output Realisation.Filter
              Realisation.ffmpeg_bin Realisation.inputToCommandArray
              Realisation.outputToCommandArray Realisation.edgedetectUnbound
              Realisation.edgedetectRequested Realisation.scenario "-map" eq_refl eq_refl)
    as (Htext & _ & Hargs).
  split; [exact Htext |].
  intros Hmap.
  apply Hargs in Hmap as [H | [(r & input & Hr & Hobj & H) | (r & output & Hr & Hobj & H)]].
  - vm_compute in H. now apply elem_of_nil in H.
  - apply list_elem_of_singleton in Hr as ->. vm_compute in Hobj.
    injection Hobj as <-. vm_compute in H.
    apply elem_of_cons in H as [H | H]; [discriminate |].
    apply list_elem_of_singleton in H. discriminate.
  - apply list_elem_of_singleton in Hr as ->. vm_compute in Hobj.
    injection Hobj as <-. vm_compute in H.
    apply list_elem_of_singleton in H. discriminate.
Defined.

End Scenario.

(** * Further properties of the filter chain *)

Section FilterChainMore.

Import FilterChain.

(** ** Lists of values of one class *)

Lemma all_filter_nodes (l : list value) :
  existsb (fun i => negb (isFilterNode i)) l = false ->
  l = map VFilterNode (omap asFilterNode l).
Proof.
  induction l as [|x l IH]; simpl; [reflexivity |].
  destruct x; simpl; try discriminate.
  intros H. f_equal. apply IH, H.
Qed.

Lemma omap_filter_nodes (ns : list FilterNode.t) :
  omap asFilterNode (map VFilterNode ns) = ns.
Proof. induction ns as [|n ns IH]; simpl; [reflexivity | f_equal; exact IH]. Qed.

Lemma existsb_filter_nodes (ns : list FilterNode.t) :
  existsb (fun i => negb (isFilterNode i)) (map VFilterNode ns) = false.
Proof. induction ns as [|n ns IH]; simpl; [reflexivity | exact IH]. Qed.

Lemma existsb_not_filter_node (l l' : list value) (x : value) :
  isFilterNode x = false ->
  existsb (fun i => negb (isFilterNode i)) (l ++ x :: l') = true.
Proof.
  intros Hx. rewrite existsb_app. simpl. rewrite Hx. simpl. apply orb_true_r.
Qed.

Lemma all_stream_specifiers (l : list value) :
  existsb (fun i => negb (isStreamSpecifier i)) l = false ->
  l = map VStreamSpecifier (omap asStreamSpecifier l).
Proof.
  induction l as [|x l IH]; simpl; [reflexivity |].
  destruct x; simpl; try discriminate.
  intros H. f_equal. apply IH, H.
Qed.

Lemma existsb_not_stream_specifier (l l' : list value) (x : value) :
  isStreamSpecifier x = false ->
  existsb (fun i => negb (isStreamSpecifier i)) (l ++ x :: l') = true.
Proof.
  intros Hx. rewrite existsb_app. simpl. rewrite Hx. simpl. apply orb_true_r.
Qed.

(** ** The constructor *)

(** X1: [new FilterChain(nodes)] returns a chain exactly when [nodes] is a
    non-empty array of filter nodes; the chain then has these nodes, in the
    order of the array, and no bound input. *)
Theorem constructor_accepts (v : value) (c : t) :
  constructor v = Ok c <->
  exists n ns,
    v = VArray (map VFilterNode (n :: ns))
    /\ c = {| nodes := n :: ns; inputs := [] |}.
Proof.
  split.
  - destruct v as [| | | l |]; unfold constructor; try discriminate.
    destruct (Nat.ltb_spec (length l) 1) as [Hlen | Hlen]; [discriminate |].
    destruct (existsb (fun i => negb (isFilterNode i)) l) eqn:E; [discriminate |].
    intros [= <-]. pose proof (all_filter_nodes l E) as Hl.
    destruct (omap asFilterNode l) as [|n ns].
    + rewrite Hl in Hlen. simpl in Hlen. lia.
    + exists n, ns. split; [now rewrite Hl | reflexivity].
  - intros (n & ns & -> & ->).
    unfold constructor. change (length (map VFilterNode (n :: ns)) <? 1) with false.
    cbv iota. now rewrite existsb_filter_nodes, omap_filter_nodes.
Qed.

(** X2: the constructor refuses what is not an array, and the empty array,
    with the cannot-be-empty error; it refuses an array that holds anything
    but filter nodes, wherever the offending element stands, with the
    must-contain-only error. *)
Theorem constructor_rejects :
  (forall v, (forall l, v <> VArray l) ->
     constructor v =
       Throw (Error "Invalid parameter: nodes Array cannot be empty; it must have at least one FilterNode object"))
  /\ constructor (VArray []) =
       Throw (Error "Invalid parameter: nodes Array cannot be empty; it must have at least one FilterNode object")
  /\ (forall l x l', isFilterNode x = false ->
        constructor (VArray (l ++ x :: l')) =
          Throw (Error "Invalid parameter: nodes Array must contain only FilterNode object")).
Proof.
  split; [| split].
  - intros v Hv. destruct v; try reflexivity. now destruct (Hv elts).
  - reflexivity.
  - intros l x l' Hx. unfold constructor.
    assert ((length (l ++ x :: l') <? 1) = false) as ->.
    { apply Nat.ltb_ge. rewrite length_app. simpl. lia. }
    now rewrite (existsb_not_filter_node l l' x Hx).
Qed.

(** ** Binding inputs *)

(** X3: [addInputs] binds all or nothing.  When it returns, its argument
    was an array of stream specifiers and the chain has them, in order,
    after the inputs it had, with its nodes untouched; when it throws, the
    chain is as it was. *)
Theorem addInputs_all_or_nothing (c : t) (v : value) :
  match (addInputs c v).2 with
  | Ok _ =>
      exists specs,
        v = VArray (map VStreamSpecifier specs)
        /\ (addInputs c v).1 = {| nodes := nodes c; inputs := inputs c ++ specs |}
  | Throw _ => (addInputs c v).1 = c
  end.
Proof.
  unfold addInputs.
  destruct (validateInputs c v) as [[validated warnings] | e] eqn:E; simpl;
    [| reflexivity].
  exists validated. split; [| reflexivity].
  now apply (validateInputs_returns c v validated warnings).
Qed.

(** X4: on a chain with a first node, [addInputs] with an array of stream
    specifiers returns unless the first node has no ['N'] pad and the inputs
    bound so far and the new ones together are more than its input pads;
    and it returns without a line to [logger.warn] exactly when they are as
    many as the pads, or at least as many on a first node with an ['N']
    pad. *)
Theorem addInputs_succeeds_iff (c : t) (n : FilterNode.t)
    (specs : list FFmpegStreamSpecifier.t) :
  inputNode c = Some n ->
  ((exists warnings, (addInputs c (VArray (map VStreamSpecifier specs))).2 = Ok warnings) <->
   orMore n = true
   \/ length (inputs c) + length specs <= length (FilterNode.inputs n))
  /\ ((addInputs c (VArray (map VStreamSpecifier specs))).2 = Ok [] <->
      length (inputs c) + length specs = length (FilterNode.inputs n)
      \/ (orMore n = true
          /\ length (FilterNode.inputs n) <= length (inputs c) + length specs)).
Proof.
  intros Hn.
  destruct (Nat.lt_trichotomy (length (inputs c) + length specs)
              (length (FilterNode.inputs n))) as [Hlt | [Heq | Hgt]].
  - destruct (addInputs_under_filled c n specs Hn Hlt) as (text & _ & ->). simpl.
    split.
    + split; [intros _; right; lia | intros _; eexists; reflexivity].
    + split; [discriminate | intros [H | [_ H]]; lia].
  - rewrite (addInputs_filled c n specs Hn); [| lia | now right]. simpl.
    split.
    + split; [intros _; right; lia | intros _; now exists []].
    + split; [now left | reflexivity].
  - destruct (orMore n) eqn:Hor.
    + rewrite (addInputs_filled c n specs Hn); [| lia | now left]. simpl.
      split.
      * split; [now left | intros _; now exists []].
      * split; [intros _; right; split; [reflexivity | lia] | reflexivity].
    + rewrite (addInputs_too_many c n specs Hn Hor Hgt). simpl.
      split.
      * split; [intros [w H]; discriminate H | intros [H | H]; [discriminate | lia]].
      * split; [discriminate | intros [H | [H _]]; [lia | discriminate]].
Qed.

(** X5: the two type checks of [validateInputs] come before anything else:
    an argument that is not an array, and an array that holds anything but
    stream specifiers, are refused with their own errors whatever the arity
    of the chain and however many inputs it has, and the chain is as it
    was. *)
Theorem addInputs_type_errors (c : t) :
  (forall v, (forall l, v <> VArray l) ->
     addInputs c v =
       (c, Throw (Error "Invalid argument: inputs must be an Array of FFmpegStreamSpecifier objects")))
  /\ (forall l x l', isStreamSpecifier x = false ->
        addInputs c (VArray (l ++ x :: l')) =
          (c, Throw (Error "Invalid inputs specified: all inputs in Array must be FFmpegStreamSpecifier objects")))
  /\ (forall x, isStreamSpecifier x = false ->
        addInput c x =
          (c, Throw (Error "Invalid inputs specified: all inputs in Array must be FFmpegStreamSpecifier objects"))).
Proof.
  split; [| split].
  - intros v Hv. destruct v; try reflexivity. now destruct (Hv elts).
  - intros l x l' Hx. unfold addInputs, validateInputs.
    now rewrite (existsb_not_stream_specifier l l' x Hx).
  - intros x Hx. unfold addInput, addInputs, validateInputs. simpl.
    now rewrite Hx.
Qed.

(** ** Strings, continued *)

Lemma append_assoc (s t u : string) : (s +:+ t) +:+ u = s +:+ t +:+ u.
Proof.
  induction s as [|a s IH]; [reflexivity |].
  now rewrite !append_cons, IH.
Qed.

Lemma length_append (s t : string) :
  String.length (s +:+ t) = String.length s + String.length t.
Proof.
  induction s as [|a s IH]; [reflexivity |].
  rewrite append_cons. simpl. now rewrite IH.
Qed.

Lemma append_cancel_l (s t u : string) : s +:+ t = s +:+ u -> t = u.
Proof.
  induction s as [|a s IH]; [trivial |].
  rewrite !append_cons. intros [= H]. now apply IH.
Qed.

Lemma append_cancel_r (s t u : string) : s +:+ u = t +:+ u -> s = t.
Proof.
  intros H. assert (String.length s = String.length t) as Hlen.
  { apply (f_equal String.length) in H. rewrite !length_append in H. lia. }
  revert t H Hlen. induction s as [|a s IH]; intros [|b t] H Hlen;
    try discriminate Hlen; [reflexivity |].
  rewrite !append_cons in H. injection H as -> H. f_equal.
  apply IH; [exact H | now injection Hlen].
Qed.

Lemma decimal_inj (i j : nat) : decimal i = decimal j -> i = j.
Proof.
  unfold decimal. intros H.
  assert (forall n, Nat.to_uint n <> Decimal.Nil) as Hnil.
  { intros n. rewrite <- (DecimalNat.Unsigned.of_to n) at 1.
    rewrite DecimalNat.Unsigned.to_of. apply DecimalFacts.unorm_nonnil. }
  apply DecimalNat.Unsigned.to_uint_inj.
  pose proof (NilZero.usu _ (Hnil i)) as Hi.
  pose proof (NilZero.usu _ (Hnil j)) as Hj.
  rewrite H in Hi. congruence.
Qed.

Lemma padName_inj (prefix : string) (i j : nat) :
  padName prefix i = padName prefix j -> i = j.
Proof.
  unfold padName. intros H.
  apply (append_cancel_l "[") in H. apply append_cancel_l in H.
  apply (append_cancel_l "_") in H. apply append_cancel_r in H.
  now apply decimal_inj.
Qed.

Lemma join_app (sep : string) (l1 l2 : list string) :
  l1 <> [] -> l2 <> [] ->
  join sep (l1 ++ l2) = join sep l1 +:+ sep +:+ join sep l2.
Proof.
  intros H1 H2. induction l1 as [|x l1 IH]; [congruence |].
  destruct l1 as [|y l1].
  - destruct l2 as [|z l2]; [congruence | reflexivity].
  - change (join sep ((x :: y :: l1) ++ l2))
      with (x +:+ sep +:+ join sep ((y :: l1) ++ l2)).
    change (join sep (x :: y :: l1)) with (x +:+ sep +:+ join sep (y :: l1)).
    rewrite IH by discriminate. now rewrite !append_assoc.
Qed.

(** ** The chain as calls change it *)

Lemma addInputs_outcome (c : t) (v : value) :
  ((addInputs c v).1 = c /\ exists e, (addInputs c v).2 = Throw e)
  \/ exists specs warnings,
       v = VArray (map VStreamSpecifier specs)
       /\ addInputs c v =
          ({| nodes := nodes c; inputs := inputs c ++ specs |}, Ok warnings).
Proof.
  unfold addInputs.
  destruct (validateInputs c v) as [[validated warnings] | e] eqn:E; simpl.
  - right. exists validated, warnings. split; [| reflexivity].
    now apply (validateInputs_returns c v validated warnings).
  - left. split; [reflexivity | now exists e].
Qed.

Lemma perform_nodes_nonempty (c : t) (k : call) :
  nodes c <> [] -> nodes (perform c k) <> [].
Proof.
  intros Hne. destruct k as [more | more | v | v]; simpl.
  - intros H. apply app_eq_nil in H as [H _]. contradiction.
  - intros H. apply app_eq_nil in H as [_ H]. contradiction.
  - now rewrite addInputs_nodes.
  - unfold addInput. now rewrite addInputs_nodes.
Qed.

Lemma performAll_nodes_nonempty (calls : list call) (c : t) :
  nodes c <> [] -> nodes (performAll c calls) <> [].
Proof.
  revert c. induction calls as [|k calls IH]; intros c Hne; simpl; [exact Hne |].
  apply IH, perform_nodes_nonempty, Hne.
Qed.

Lemma addInputs_finite_step (c : t) (n : FilterNode.t) (v : value) :
  inputNode c = Some n -> orMore n = false ->
  length (inputs c) <= length (FilterNode.inputs n) ->
  nodes (addInputs c v).1 = nodes c
  /\ length (inputs (addInputs c v).1) <= length (FilterNode.inputs n)
  /\ exists more, inputs (addInputs c v).1 = inputs c ++ more.
Proof.
  intros Hn Hor Hle.
  destruct (addInputs_outcome c v) as [[H _] | (specs & warnings & -> & H)].
  - rewrite H. split; [reflexivity |]. split; [exact Hle |].
    exists []. now rewrite app_nil_r.
  - rewrite H. simpl. split; [reflexivity |]. split; [| now exists specs].
    rewrite length_app.
    destruct (Nat.le_gt_cases (length (inputs c) + length specs)
                (length (FilterNode.inputs n))) as [Hok | Hgt]; [exact Hok |].
    rewrite (addInputs_too_many c n specs Hn Hor Hgt) in H. discriminate H.
Qed.

(** X6: on a chain whose first node has no ['N'] pad and that has no more
    inputs than this node has pads, any sequence of [addInputs] calls,
    failed ones included, leaves the nodes alone, never binds more inputs
    than pads, and only ever appends: the inputs the chain had stay first,
    in their order. *)
Theorem addInputs_keeps_finite_arity (c : t) (n : FilterNode.t) (vs : list value) :
  inputNode c = Some n ->
  orMore n = false ->
  length (inputs c) <= length (FilterNode.inputs n) ->
  nodes (fold_left (fun c' v => (addInputs c' v).1) vs c) = nodes c
  /\ length (inputs (fold_left (fun c' v => (addInputs c' v).1) vs c))
     <= length (FilterNode.inputs n)
  /\ exists more,
       inputs (fold_left (fun c' v => (addInputs c' v).1) vs c) = inputs c ++ more.
Proof.
  intros Hn Hor. revert c Hn. induction vs as [|v vs IH]; intros c Hn Hle; simpl.
  - split; [reflexivity |]. split; [exact Hle |]. exists []. now rewrite app_nil_r.
  - destruct (addInputs_finite_step c n v Hn Hor Hle) as (Hnodes & Hlen & more1 & Hmore1).
    destruct (IH (addInputs c v).1) as (H1 & H2 & more2 & H3).
    + unfold inputNode. rewrite Hnodes. exact Hn.
    + exact Hlen.
    + split; [congruence |]. split; [exact H2 |].
      exists (more1 ++ more2). now rewrite H3, Hmore1, app_assoc.
Qed.

(** X7: [prependNodes] does not look at the inputs already bound.  When the
    node it puts first has no ['N'] pad and fewer pads than the chain has
    inputs, every later [addInputs] call with stream specifiers, the empty
    array included, is refused with the arity error. *)
Theorem prependNodes_then_addInputs (c : t) (n : FilterNode.t)
    (more : list FilterNode.t) (specs : list FFmpegStreamSpecifier.t) :
  orMore n = false ->
  length (FilterNode.inputs n) < length (inputs c) ->
  inputs (prependNodes c (n :: more)) = inputs c
  /\ addInputs (prependNodes c (n :: more)) (VArray (map VStreamSpecifier specs)) =
       (prependNodes c (n :: more),
        Throw (Error ("Too many inputs specified: "
                      +:+ decimal (length (FilterNode.inputs n)) +:+ " inputs required"))).
Proof.
  intros Hor Hlt. split; [reflexivity |].
  apply addInputs_too_many; [reflexivity | exact Hor | simpl; lia].
Qed.

(** X8: how the two splicing calls compose.  Appending twice appends the
    concatenation; prepending [a] and then [b] puts [b] before [a];
    appending and prepending commute; the last node appended is the output
    node, the first node prepended is the input node, and the bound inputs
    are the same after either call. *)
Theorem splicing_composes (c : t) (a b : list FilterNode.t) (n : FilterNode.t) :
  appendNodes (appendNodes c a) b = appendNodes c (a ++ b)
  /\ prependNodes (prependNodes c a) b = prependNodes c (b ++ a)
  /\ appendNodes (prependNodes c a) b = prependNodes (appendNodes c b) a
  /\ outputNode (appendNodes c (a ++ [n])) = Some n
  /\ inputNode (prependNodes c (n :: a)) = Some n
  /\ inputs (appendNodes c a) = inputs c
  /\ inputs (prependNodes c a) = inputs c.
Proof.
  unfold appendNodes, prependNodes, outputNode, inputNode. simpl.
  repeat split.
  - now rewrite app_assoc.
  - now rewrite app_assoc.
  - now rewrite app_assoc.
  - rewrite app_assoc. apply last_snoc.
Qed.

(** X9: a chain made by the constructor renders after any sequence of
    [appendNodes], [prependNodes], [addInputs] and [addInput] calls, failed
    ones included: [toString] finds its output node and returns the inputs
    part, the filters part and one name per output pad. *)
Theorem constructed_chain_renders (v : value) (c : t) (calls : list call) :
  constructor v = Ok c ->
  toString (performAll c calls) =
    Ok (renderInputs (performAll c calls)
        +:+ renderFilters (performAll c calls)
        +:+ join EmptyString (outputPadNames (performAll c calls))).
Proof.
  intros Hc. apply constructor_nodes in Hc as [Hne _].
  pose proof (performAll_nodes_nonempty calls c Hne) as Hne'.
  apply last_is_Some in Hne' as [out Hout].
  unfold toString, outputPadNames, outputNode. now rewrite Hout.
Qed.

(** X10: appending nodes to a chain that has nodes extends the filters part
    by a comma and the texts of the new nodes, and the output pads named are
    those of the last node appended. *)
Theorem appendNodes_renders (c : t) (more : list FilterNode.t) (n : FilterNode.t) :
  nodes c <> [] ->
  toString (appendNodes c (more ++ [n])) =
    Ok (renderInputs c
        +:+ (renderFilters c +:+ "," +:+ join "," (map FilterNode.toString (more ++ [n])))
        +:+ join EmptyString
              (imap (fun i _ => padName (FilterNode.padPrefix n) i) (FilterNode.outputs n))).
Proof.
  intros Hne.
  rewrite (toString_shape (appendNodes c (more ++ [n])) n).
  - unfold renderFilters, appendNodes. simpl. rewrite map_app.
    rewrite join_app.
    + reflexivity.
    + intros H. apply map_eq_nil in H. contradiction.
    + rewrite map_app. intros H. apply app_eq_nil in H as [_ H]. discriminate H.
  - unfold outputNode, appendNodes. simpl. rewrite app_assoc. apply last_snoc.
Qed.

(** X11: the names [toString] gives to the output pads of a chain are as
    many as the output pads of its last node and pairwise distinct. *)
Theorem outputPadNames_distinct (c : t) :
  NoDup (outputPadNames c)
  /\ length (outputPadNames c)
     = match outputNode c with
       | Some out => length (FilterNode.outputs out)
       | None => 0
       end.
Proof.
  unfold outputPadNames. destruct (outputNode c) as [out |]; [| split; [constructor | reflexivity]].
  rewrite (imap_seq_0 (FilterNode.outputs out) (padName (FilterNode.padPrefix out))).
  split.
  - apply NoDup_fmap_2_strong; [| apply NoDup_seq].
    intros i j _ _ H. now apply padName_inj in H.
  - now rewrite length_fmap, length_seq.
Qed.

(** X12: [wrap] never throws, what it returns is never a filter node, and
    wrapping what it returned returns the same again. *)
Theorem wrap_idempotent (v : value) :
  exists w, wrap v = Ok w /\ isFilterNode w = false /\ wrap w = Ok w.
Proof.
  destruct v; eexists; (split; [reflexivity | split; reflexivity]).
Qed.

End FilterChainMore.

(** * Further properties of the command *)

Section FFmpegCommandMore.

Import FFmpegCommand.

Variable Output : Type.
Variable Filter : Type.
Variable ffmpeg_bin : string.
Variable inputToCommandArray : FFmpegInput.t -> list string.
Variable outputToCommandArray : Output -> list string.
Variable addOptions : Output -> list (string * value) -> Output.
Variable mapTrack : Output -> nat -> mapping -> Output.
Variable outputPadNames : Filter -> list string.
Variable markOutputPadMapped : Filter -> value -> Filter * result unit.

Abbreviation state := (FFmpegCommand.state Output Filter).
Abbreviation getMappingParameterValue :=
  (@FFmpegCommand.getMappingParameterValue Output Filter outputPadNames markOutputPadMapped).
Abbreviation processMappingsFrom :=
  (@FFmpegCommand.processMappingsFrom Output Filter mapTrack outputPadNames markOutputPadMapped).
Abbreviation processMappings :=
  (@FFmpegCommand.processMappings Output Filter mapTrack outputPadNames markOutputPadMapped).
Abbreviation addInput := (@FFmpegCommand.addInput Output Filter).
Abbreviation addOutput :=
  (@FFmpegCommand.addOutput Output Filter mapTrack outputPadNames markOutputPadMapped).
Abbreviation addFilterGraph := (@FFmpegCommand.addFilterGraph Output Filter addOptions).
Abbreviation toCommand :=
  (@FFmpegCommand.toCommand Output Filter ffmpeg_bin inputToCommandArray outputToCommandArray).
Abbreviation toString :=
  (@FFmpegCommand.toString Output Filter ffmpeg_bin inputToCommandArray outputToCommandArray).
Abbreviation perform :=
  (@FFmpegCommand.perform Output Filter addOptions mapTrack outputPadNames markOutputPadMapped).
Abbreviation performAll :=
  (@FFmpegCommand.performAll Output Filter addOptions mapTrack outputPadNames markOutputPadMapped).
Abbreviation inputArgs := (@FFmpegCommand.inputArgs Output Filter inputToCommandArray).
Abbreviation outputArgs := (@FFmpegCommand.outputArgs Output Filter outputToCommandArray).
Abbreviation info := (@FFmpegCommand.info Output Filter).
Abbreviation labelOf := (@FFmpegCommand.labelOf Output Filter).
Abbreviation sameObjects := (@FFmpegCommand.sameObjects Output Filter).
Abbreviation sameInputs := (@FFmpegCommand.sameInputs Output Filter).
Abbreviation lastLabelled := (@FFmpegCommand.lastLabelled Output Filter).

(** ** Positions in an array *)

Lemma lastIndexOf_None (arr : list ref) (x : ref) :
  lastIndexOf arr x = None <-> x ∉ arr.
Proof.
  induction arr as [|y arr IH]; simpl.
  - split; [intros _; apply not_elem_of_nil | reflexivity].
  - rewrite not_elem_of_cons. destruct (lastIndexOf arr x) as [k |].
    + split; [discriminate |]. intros [_ H]. apply IH in H. discriminate H.
    + destruct (Nat.eqb_spec y x) as [-> | Hne].
      * split; [discriminate | intros [H _]; congruence].
      * split; [| reflexivity]. intros _. split; [congruence | now apply IH].
Qed.

Lemma lastIndexOf_Some (arr : list ref) (x : ref) (k : nat) :
  lastIndexOf arr x = Some k <->
  arr !! k = Some x /\ forall j, k < j -> arr !! j <> Some x.
Proof.
  revert k. induction arr as [|y arr IH]; intros k; simpl.
  - split; [discriminate | intros [H _]; discriminate].
  - destruct (lastIndexOf arr x) as [k' |] eqn:E.
    + split.
      * intros [= <-]. destruct (proj1 (IH k') eq_refl) as [Hk Hmax].
        split; [exact Hk |]. intros [|j] Hj; [lia |]. simpl. apply Hmax. lia.
      * intros [Hk Hmax]. destruct (proj1 (IH k') eq_refl) as [Hk' Hmax'].
        destruct k as [|k].
        -- now destruct (Hmax (S k') ltac:(lia)).
        -- simpl in Hk. f_equal. f_equal.
           destruct (Nat.lt_trichotomy k k') as [Hlt | [-> | Hgt]]; [| reflexivity |].
           ++ now destruct (Hmax (S k') ltac:(lia)).
           ++ now destruct (Hmax' k Hgt).
    + assert (x ∉ arr) as Hnot by now apply lastIndexOf_None.
      destruct (Nat.eqb_spec y x) as [-> | Hne].
      * split.
        -- intros [= <-]. split; [reflexivity |].
           intros [|j] Hj Hl; [lia |]. simpl in Hl.
           apply Hnot. eapply list_elem_of_lookup_2. exact Hl.
        -- intros [Hk _]. destruct k as [|k]; [reflexivity |]. simpl in Hk.
           destruct Hnot. eapply list_elem_of_lookup_2. exact Hk.
      * split; [discriminate |]. intros [Hk _]. destruct k as [|k]; simpl in Hk.
        -- congruence.
        -- destruct Hnot. eapply list_elem_of_lookup_2. exact Hk.
Qed.

Lemma lastIndexOf_snoc_eq (arr : list ref) (x : ref) :
  lastIndexOf (arr ++ [x]) x = Some (length arr).
Proof.
  apply lastIndexOf_Some. split.
  - rewrite lookup_app_r by lia. now rewrite Nat.sub_diag.
  - intros j Hj Hl. apply lookup_lt_Some in Hl. rewrite length_app in Hl. simpl in Hl. lia.
Qed.

Lemma lastIndexOf_snoc_ne (arr : list ref) (x y : ref) :
  y <> x -> lastIndexOf (arr ++ [y]) x = lastIndexOf arr x.
Proof.
  intros Hne. induction arr as [|z arr IH]; simpl.
  - destruct (Nat.eqb_spec y x); [contradiction | reflexivity].
  - now rewrite IH.
Qed.

Lemma indexOf_of_NoDup (arr : list ref) (x : ref) (k : nat) :
  NoDup arr -> arr !! k = Some x -> indexOf arr x = Some k.
Proof.
  intros Hnd Hk. apply indexOf_Some. split; [exact Hk |].
  intros j Hj Hl. pose proof (NoDup_lookup arr j k x Hnd Hl Hk). lia.
Qed.

Lemma lastIndexOf_of_NoDup (arr : list ref) (x : ref) (k : nat) :
  NoDup arr -> arr !! k = Some x -> lastIndexOf arr x = Some k.
Proof.
  intros Hnd Hk. apply lastIndexOf_Some. split; [exact Hk |].
  intros j Hj Hl. pose proof (NoDup_lookup arr j k x Hnd Hl Hk). lia.
Qed.

(** ** What a call leaves of the command *)

Lemma mapping_sameObjects (st : state) (v i : value) :
  sameObjects st (getMappingParameterValue st v i).1.
Proof.
  destruct v;
    try (rewrite mapping_of_other; [apply sameObjects_refl | intros r'; discriminate]).
  rewrite mapping_of_input. apply info_same.
Qed.

Lemma performAll_inputs (calls : list call) (st : state) :
  _inputs (cmd (performAll st calls)) = _inputs (cmd st) ++ inputsAdded calls.
Proof.
  revert st. induction calls as [|c calls IH]; intros st; simpl.
  - now rewrite app_nil_r.
  - change (fold_left perform calls (perform st c)) with (performAll (perform st c) calls).
    rewrite IH. destruct c as [r | o m | g o]; simpl.
    + change (inputsAdded (AddInput r :: calls)) with (r :: inputsAdded calls).
      now rewrite <- app_assoc.
    + now destruct (addOutput_sameInputs Output Filter mapTrack outputPadNames markOutputPadMapped st o m)
        as [-> _].
    + now destruct (addFilterGraph_sameInputs Output Filter addOptions st g o) as [-> _].
Qed.

Lemma addInput_lastLabelled (st : state) (r : ref) :
  lastLabelled st -> lastLabelled (addInput st r).
Proof.
  intros Hl r' obj. unfold FFmpegCommand.addInput. simpl.
  destruct (decide (r = r')) as [<- | Hne].
  - rewrite lookup_alter_eq. destruct (inputObjs st !! r) as [o |]; [| discriminate].
    intros [= <-] _. simpl. now rewrite lastIndexOf_snoc_eq.
  - rewrite lookup_alter_ne by exact Hne. intros Hobj Hin.
    rewrite lastIndexOf_snoc_ne by exact Hne. apply Hl; [exact Hobj |].
    apply elem_of_app in Hin as [Hin | Hin]; [exact Hin |].
    apply list_elem_of_singleton in Hin. congruence.
Qed.

Lemma perform_lastLabelled (st : state) (c : call) :
  lastLabelled st -> lastLabelled (perform st c).
Proof.
  intros Hl. destruct c as [r | o m | g o]; simpl.
  - now apply addInput_lastLabelled.
  - destruct (addOutput_sameInputs Output Filter mapTrack outputPadNames markOutputPadMapped st o m)
      as [H1 H2].
    intros r obj. rewrite H1, H2. apply Hl.
  - destruct (addFilterGraph_sameInputs Output Filter addOptions st g o) as [H1 H2].
    intros r obj. rewrite H1, H2. apply Hl.
Qed.

Lemma performAll_lastLabelled (calls : list call) (st : state) :
  lastLabelled st -> lastLabelled (performAll st calls).
Proof.
  revert st. induction calls as [|c calls IH]; intros st Hl; simpl; [exact Hl |].
  apply IH, perform_lastLabelled, Hl.
Qed.

(** ** Labels and mapping positions *)

(** X13: after any sequence of [addInput], [addOutput] and [addFilterGraph]
    calls on a command that had no inputs, the inputs of the command are the
    objects passed to [addInput], in order and with repetitions, and the
    label of each of these objects is the last position at which it was
    added. *)
Theorem label_is_last_position (st : state) (calls : list call) :
  _inputs (cmd st) = [] ->
  inputs (performAll st calls) = inputsAdded calls
  /\ forall r obj,
       inputObjs (performAll st calls) !! r = Some obj ->
       r ∈ inputsAdded calls ->
       FFmpegInput.inputLabel obj = lastIndexOf (inputsAdded calls) r.
Proof.
  intros Hempty.
  assert (_inputs (cmd (performAll st calls)) = inputsAdded calls) as Hin.
  { now rewrite performAll_inputs, Hempty. }
  split; [exact Hin |].
  intros r obj Hobj Hr. rewrite <- Hin in Hr |- *.
  apply (performAll_lastLabelled calls st); [| exact Hobj | exact Hr].
  intros r' obj' _ Hr'. rewrite Hempty in Hr'. now apply elem_of_nil in Hr'.
Qed.

(** X14: on a command built from no inputs by calls that pass no input
    object to [addInput] twice, a mapping request for the k-th input added
    returns the pair of k and the stream index, whatever the stream index
    is, and k is also the label the input object carries. *)
Theorem mapping_index_is_label (st : state) (calls : list call) (k : nat) (r : ref)
    (i : value) :
  _inputs (cmd st) = [] ->
  NoDup (inputsAdded calls) ->
  inputsAdded calls !! k = Some r ->
  (getMappingParameterValue (performAll st calls) (VInput r) i).2 = Ok (MapInput k i)
  /\ forall obj,
       inputObjs (performAll st calls) !! r = Some obj ->
       FFmpegInput.inputLabel obj = Some k.
Proof.
  intros Hempty Hnd Hk.
  assert (_inputs (cmd (performAll st calls)) = inputsAdded calls) as Hin.
  { now rewrite performAll_inputs, Hempty. }
  split.
  - rewrite mapping_of_input. simpl. rewrite Hin.
    now rewrite (indexOf_of_NoDup _ _ _ Hnd Hk).
  - intros obj Hobj.
    rewrite <- (lastIndexOf_of_NoDup _ _ _ Hnd Hk), <- Hin.
    apply (performAll_lastLabelled calls st); [| exact Hobj |].
    + intros r' obj' _ Hr'. rewrite Hempty in Hr'. now apply elem_of_nil in Hr'.
    + rewrite Hin. eapply list_elem_of_lookup_2. exact Hk.
Qed.

(** X15: an input object added at two positions j < k is mapped by a
    position that is at most j (the first at which it stands, from
    [indexOf]) and labelled with a position that is at least k (the last at
    which it was added): the index of its mapping and its label differ. *)
Theorem twice_added_input_positions (st : state) (calls : list call) (j k : nat)
    (r : ref) (obj : FFmpegInput.t) (i : value) :
  _inputs (cmd st) = [] ->
  inputsAdded calls !! j = Some r ->
  inputsAdded calls !! k = Some r ->
  j < k ->
  inputObjs (performAll st calls) !! r = Some obj ->
  exists first last,
    (getMappingParameterValue (performAll st calls) (VInput r) i).2
    = Ok (MapInput first i)
    /\ FFmpegInput.inputLabel obj = Some last
    /\ first <= j /\ k <= last.
Proof.
  intros Hempty Hj Hk Hjk Hobj.
  assert (_inputs (cmd (performAll st calls)) = inputsAdded calls) as Hin.
  { now rewrite performAll_inputs, Hempty. }
  assert (r ∈ inputsAdded calls) as Hr.
  { eapply list_elem_of_lookup_2. exact Hj. }
  destruct (indexOf (inputsAdded calls) r) as [first |] eqn:Ef;
    [| apply indexOf_None in Ef; contradiction].
  destruct (lastIndexOf (inputsAdded calls) r) as [last |] eqn:El;
    [| apply lastIndexOf_None in El; contradiction].
  exists first, last.
  pose proof (proj1 (indexOf_Some _ _ _) Ef) as [_ Hmin].
  pose proof (proj1 (lastIndexOf_Some _ _ _) El) as [_ Hmax].
  repeat split.
  - rewrite mapping_of_input. simpl. now rewrite Hin, Ef.
  - rewrite <- El, <- Hin.
    apply (performAll_lastLabelled calls st); [| exact Hobj | now rewrite Hin].
    intros r' obj' _ Hr'. rewrite Hempty in Hr'. now apply elem_of_nil in Hr'.
  - destruct (Nat.le_gt_cases first j) as [Hle | Hgt]; [exact Hle |].
    now destruct (Hmin j Hgt).
  - destruct (Nat.le_gt_cases k last) as [Hle | Hgt]; [exact Hle |].
    now destruct (Hmax k Hgt).
Qed.

(** X16: a mapping request changes neither the command nor any input,
    output or filter object, whatever its arguments are and whether it
    returns or throws; all it leaves behind is at most one line sent to
    [logger.info]. *)
Theorem mapping_request_reads_only (st : state) (v i : value) :
  sameObjects st (getMappingParameterValue st v i).1
  /\ (log (getMappingParameterValue st v i).1 = log st
      \/ exists line, log (getMappingParameterValue st v i).1 = log st ++ [line]).
Proof.
  split; [apply mapping_sameObjects |].
  destruct v; try (left; rewrite mapping_of_other; [reflexivity | intros r'; discriminate]).
  right. rewrite mapping_of_input. simpl. eexists. reflexivity.
Qed.

(** ** Adding outputs and filter graphs *)

Lemma addOutput_pushes (st : state) (output : ref) (mappings : value) :
  (addOutput st output mappings).1 = withCmd (pushOutput output (cmd st)) st.
Proof.
  destruct mappings as [| | | | | | | | l |]; try reflexivity.
  now destruct l.
Qed.

Lemma addFilterGraph_pushes (st : state) (filterGraph onOutput : value) :
  cmd (addFilterGraph st filterGraph onOutput).1 = pushFilterGraph filterGraph (cmd st)
  /\ inputObjs (addFilterGraph st filterGraph onOutput).1 = inputObjs st
  /\ filterObjs (addFilterGraph st filterGraph onOutput).1 = filterObjs st
  /\ log (addFilterGraph st filterGraph onOutput).1 = log st.
Proof. destruct onOutput; repeat split. Qed.

(** X17: [addOutput] appends the output to the command whatever [mappings]
    is, and changes nothing else: no object, no other list of the command,
    no log line.  It returns for [null], [undefined] and the empty array;
    for a non-empty array it throws the TypeError of [output.mapTrack] on
    the first mapping, [output] being [undefined] in [processMappings]; for
    any other value it throws because [mappings.map] is not a function. *)
Theorem addOutput_outcome (st : state) (output : ref) (mappings : value) :
  addOutput st output mappings =
    (withCmd (pushOutput output (cmd st)) st,
     match mappings with
     | VNull | VUndefined | VArray [] => Ok tt
     | VArray (_ :: _) =>
         Throw (TypeError "Cannot read properties of undefined (reading 'mapTrack')")
     | _ => Throw (TypeError "mappings.map is not a function")
     end).
Proof.
  destruct mappings as [| | | | | | | | l |]; try reflexivity.
  now destruct l.
Qed.

(** X18: [addFilterGraph] never throws and never looks at the graph it is
    given.  It appends the graph to the filter graphs of the command; when
    [onOutput] is an output object, that object and no other gets the option
    [filter] with the graph as value through [addOptions]; for any other
    [onOutput] no object changes. *)
Theorem addFilterGraph_outcome (st : state) (filterGraph onOutput : value) :
  (addFilterGraph st filterGraph onOutput).2 = Ok tt
  /\ cmd (addFilterGraph st filterGraph onOutput).1 = pushFilterGraph filterGraph (cmd st)
  /\ inputObjs (addFilterGraph st filterGraph onOutput).1 = inputObjs st
  /\ filterObjs (addFilterGraph st filterGraph onOutput).1 = filterObjs st
  /\ forall o,
       outputObjs (addFilterGraph st filterGraph onOutput).1 !! o
       = match onOutput with
         | VOutput o' =>
             if Nat.eqb o' o
             then (fun out => addOptions out [("filter", filterGraph)]) <$> outputObjs st !! o
             else outputObjs st !! o
         | _ => outputObjs st !! o
         end.
Proof.
  split; [now destruct onOutput |].
  destruct (addFilterGraph_pushes st filterGraph onOutput) as (H1 & H2 & H3 & _).
  split; [exact H1 |]. split; [exact H2 |]. split; [exact H3 |].
  intros o. destruct onOutput as [| | | | | o' | | | |]; try reflexivity.
  unfold FFmpegCommand.addFilterGraph. simpl.
  destruct (Nat.eqb_spec o' o) as [-> | Hne].
  - now rewrite lookup_alter_eq.
  - now rewrite lookup_alter_ne.
Qed.

Lemma outputsAdded_cons_output (o : ref) (m : value) (calls : list call) :
  outputsAdded (AddOutput o m :: calls) = o :: outputsAdded calls.
Proof. reflexivity. Qed.

(** X19: after any sequence of [addInput], [addOutput] and [addFilterGraph]
    calls, [inputs()], [outputs()] and [filterGraphs()] return what the
    command had followed by the arguments of the calls, each list in call
    order; the global options, [mappedIO()] and the filter objects are what
    they were: no call records a connection. *)
Theorem builders_accumulate (st : state) (calls : list call) :
  inputs (performAll st calls) = inputs st ++ inputsAdded calls
  /\ outputs (performAll st calls) = outputs st ++ outputsAdded calls
  /\ filterGraphs (performAll st calls) = filterGraphs st ++ filterGraphsAdded calls
  /\ mappedIO (performAll st calls) = mappedIO st
  /\ options (cmd (performAll st calls)) = options (cmd st)
  /\ filterObjs (performAll st calls) = filterObjs st.
Proof.
  unfold inputs, outputs, filterGraphs, mappedIO.
  revert st. induction calls as [|c calls IH]; intros st.
  - simpl. rewrite !app_nil_r. repeat split.
  - change (performAll st (c :: calls)) with (performAll (perform st c) calls).
    destruct (IH (perform st c)) as (H1 & H2 & H3 & H4 & H5 & H6).
    rewrite H1, H2, H3, H4, H5, H6. clear IH H1 H2 H3 H4 H5 H6.
    destruct c as [r | o m | g o]; simpl.
    + repeat split; now rewrite <- app_assoc.
    + rewrite addOutput_pushes. simpl. repeat split; now rewrite <- app_assoc.
    + destruct (addFilterGraph_pushes st g o) as (-> & _ & -> & _). simpl.
      repeat split; now rewrite <- app_assoc.
Qed.

(** ** [processMappings] with an output *)

Lemma insert_after_alter (f : Output -> Output) (o : ref) (x : Output)
    (m : gmap ref Output) :
  <[o := x]> (alter f o m) = <[o := x]> m.
Proof.
  apply map_eq. intros k. destruct (decide (o = k)) as [-> | Hne].
  - now rewrite !lookup_insert_eq.
  - now rewrite !lookup_insert_ne, lookup_alter_ne.
Qed.

Lemma processMappingsFrom_inputs (rs : list ref) (positions : list nat) :
  Forall2 (fun _ _ => True) rs positions ->
  forall (st : state) (index : nat) (out : Output) (o : ref) (tail : list value),
    outputObjs st !! o = Some out ->
    Forall2 (fun r p => indexOf (_inputs (cmd st)) r = Some p) rs positions ->
    exists st1,
      cmd st1 = cmd st /\ inputObjs st1 = inputObjs st /\ filterObjs st1 = filterObjs st
      /\ outputObjs st1 = <[o := mapTracksFrom mapTrack out index positions]> (outputObjs st)
      /\ processMappingsFrom st index (map VInput rs ++ tail) (Some o)
         = processMappingsFrom st1 (index + length rs) tail (Some o).
Proof.
  induction 1 as [|r p rs positions _ _ IH]; intros st index out o tail Hout Hpos.
  - exists st. repeat split.
    + simpl. now rewrite insert_id.
    + simpl. now rewrite Nat.add_0_r.
  - apply Forall2_cons in Hpos as [Hp Hpos].
    change (map VInput (r :: rs) ++ tail) with (VInput r :: map VInput rs ++ tail).
    cbn [FFmpegCommand.processMappingsFrom].
    rewrite mapping_of_input, Hp.
    match goal with
    | |- context [FFmpegCommand.processMappingsFrom _ _ _ ?s2 (S index) _ _] =>
        destruct (IH s2 (S index) (mapTrack out index (MapInput p VUndefined)) o tail)
          as (st1 & H1 & H2 & H3 & H4 & H5)
    end.
    + simpl. now rewrite lookup_alter_eq, Hout.
    + exact Hpos.
    + exists st1. split; [exact H1 |]. split; [exact H2 |]. split; [exact H3 |].
      split.
      * rewrite H4. simpl. apply insert_after_alter.
      * rewrite H5. simpl. now rewrite Nat.add_succ_r.
Qed.

(** X20: [processMappings] called with an output object and an array of
    input objects that all stand in the command hands to [mapTrack], for
    track 0, 1, 2, ... in array order, the pair of the position of the
    input and [undefined]; it returns the output, and changes neither the
    command nor any input or filter object nor any other output. *)
Theorem processMappings_maps_inputs (st : state) (o : ref) (out : Output)
    (rs : list ref) (positions : list nat) :
  outputObjs st !! o = Some out ->
  Forall2 (fun r p => indexOf (_inputs (cmd st)) r = Some p) rs positions ->
  (processMappings st (VArray (map VInput rs)) (Some o)).2 = Ok (Some o)
  /\ outputObjs (processMappings st (VArray (map VInput rs)) (Some o)).1
     = <[o := mapTracksFrom mapTrack out 0 positions]> (outputObjs st)
  /\ cmd (processMappings st (VArray (map VInput rs)) (Some o)).1 = cmd st
  /\ inputObjs (processMappings st (VArray (map VInput rs)) (Some o)).1 = inputObjs st
  /\ filterObjs (processMappings st (VArray (map VInput rs)) (Some o)).1 = filterObjs st.
Proof.
  intros Hout Hpos.
  destruct (processMappingsFrom_inputs rs positions
              (Forall2_impl _ _ _ _ Hpos (fun _ _ _ => I)) st 0 out o [] Hout Hpos)
    as (st1 & H1 & H2 & H3 & H4 & H5).
  unfold FFmpegCommand.processMappings.
  rewrite app_nil_r in H5. rewrite H5. simpl. now repeat split.
Qed.

(** X21: when the array handed to [processMappings] holds, after input
    objects of the command, a value that is not an input object (a filter
    node, a filter graph, or a [[source, index]] array), the call throws the
    ReferenceError of the unbound [FilterNode] at that value; the tracks for
    the inputs before it have been handed to [mapTrack] and stay mapped, the
    mappings after it are not looked at. *)
Theorem processMappings_stops_at_other (st : state) (o : ref) (out : Output)
    (rs : list ref) (positions : list nat) (v : value) (rest : list value) :
  outputObjs st !! o = Some out ->
  Forall2 (fun r p => indexOf (_inputs (cmd st)) r = Some p) rs positions ->
  (forall r, v <> VInput r) ->
  (processMappings st (VArray (map VInput rs ++ v :: rest)) (Some o)).2
  = Throw (ReferenceError "FilterNode")
  /\ outputObjs (processMappings st (VArray (map VInput rs ++ v :: rest)) (Some o)).1
     = <[o := mapTracksFrom mapTrack out 0 positions]> (outputObjs st).
Proof.
  intros Hout Hpos Hv.
  destruct (processMappingsFrom_inputs rs positions
              (Forall2_impl _ _ _ _ Hpos (fun _ _ _ => I)) st 0 out o (v :: rest) Hout Hpos)
    as (st1 & H1 & H2 & H3 & H4 & H5).
  unfold FFmpegCommand.processMappings. rewrite H5.
  cbn [FFmpegCommand.processMappingsFrom].
  rewrite (mapping_of_other Output Filter outputPadNames markOutputPadMapped st1 v VUndefined Hv).
  simpl. now split.
Qed.

(** ** Rendering after a call *)

Lemma flat_map_unchanged {A B : Type} (f g : A -> list B) (l : list A) :
  (forall x, x ∈ l -> f x = g x) -> flat_map f l = flat_map g l.
Proof.
  induction l as [|x l IH]; intros H; simpl; [reflexivity |].
  rewrite (H x) by left. f_equal. apply IH. intros y Hy. apply H. now right.
Qed.

(** X22: adding an input object that is not yet among the inputs of the
    command puts its block, rendered with the label it has just got, right
    after the blocks of the inputs the command had and before the blocks of
    the outputs; the rest of the argument list is the same. *)
Theorem toCommand_after_addInput (st : state) (r : ref) (obj : FFmpegInput.t) :
  inputObjs st !! r = Some obj ->
  r ∉ _inputs (cmd st) ->
  args (toCommand (addInput st r)).2 =
    optionArgs (options (cmd st))
    ++ inputArgs st
    ++ inputToCommandArray (FFmpegInput.setInputLabel (length (_inputs (cmd st))) obj)
    ++ outputArgs st.
Proof.
  intros Hobj Hfresh. rewrite toCommand_line. simpl.
  f_equal. rewrite app_assoc. f_equal.
  unfold FFmpegCommand.inputArgs, FFmpegCommand.addInput. simpl.
  rewrite flat_map_app. simpl. rewrite lookup_alter_eq, Hobj. simpl.
  rewrite app_nil_r. f_equal.
  apply flat_map_unchanged. intros r' Hr'.
  rewrite lookup_alter_ne; [reflexivity |]. intros ->. contradiction.
Qed.

(** X23: after [addOutput], whatever [mappings] is and whether the call
    returned or threw, the rendered argument list is the one before the
    call followed by the block of the output added. *)
Theorem toCommand_after_addOutput (st : state) (output : ref) (mappings : value) :
  args (toCommand (addOutput st output mappings).1).2 =
    args (toCommand st).2
    ++ from_option outputToCommandArray [] (outputObjs st !! output).
Proof.
  rewrite addOutput_pushes, !toCommand_line. simpl.
  unfold FFmpegCommand.outputArgs, FFmpegCommand.inputArgs. simpl.
  rewrite flat_map_app. simpl. rewrite app_nil_r. now rewrite !app_assoc.
Qed.

(** X24: a filter graph added without an output object to attach it to
    leaves the rendered command as it was: the graph is stored and
    [toCommand] never reads it. *)
Theorem toCommand_after_addFilterGraph (st : state) (filterGraph onOutput : value) :
  (forall o, onOutput <> VOutput o) ->
  (toCommand (addFilterGraph st filterGraph onOutput).1).2 = (toCommand st).2
  /\ filterGraphs (addFilterGraph st filterGraph onOutput).1
     = filterGraphs st ++ [filterGraph].
Proof.
  intros Hno. split.
  - rewrite !toCommand_line.
    destruct onOutput; try reflexivity. now destruct (Hno r).
  - unfold filterGraphs.
    now destruct (addFilterGraph_pushes st filterGraph onOutput) as (-> & _).
Qed.

(** X25: a command without options, inputs and outputs renders to the
    executable followed by one space. *)
Theorem toString_of_empty_command (st : state) :
  options (cmd st) = [] -> _inputs (cmd st) = [] -> _outputs (cmd st) = [] ->
  (toCommand st).2 = {| command := ffmpeg_bin; args := [] |}
  /\ (toString st).2 = ffmpeg_bin +:+ " ".
Proof.
  intros Ho Hi Hu.
  assert ((toCommand st).2 = {| command := ffmpeg_bin; args := [] |}) as Hline.
  { rewrite toCommand_line. unfold FFmpegCommand.inputArgs, FFmpegCommand.outputArgs.
    now rewrite Ho, Hi, Hu. }
  split; [exact Hline |].
  unfold FFmpegCommand.toString.
  destruct (toCommand st) as [st1 line]. simpl in *. now rewrite Hline.
Qed.

End FFmpegCommandMore.

(** * The text of an argument *)

Section QuotingFacts.

Import FFmpegCommand.

Lemma escapeQuotes_head (t s : string) : escapeQuotes t <> String dquote s.
Proof.
  destruct t as [|c t]; simpl; [discriminate |].
  destruct (Ascii.eqb c dquote) eqn:E.
  - intros H. inversion H.
  - intros [= H _]. rewrite H, Ascii.eqb_refl in E. discriminate E.
Qed.

Lemma escapeQuotes_inj (s t : string) : escapeQuotes s = escapeQuotes t -> s = t.
Proof.
  revert t. induction s as [|c s IH]; intros [|d t]; simpl.
  - reflexivity.
  - destruct (Ascii.eqb d dquote); discriminate.
  - destruct (Ascii.eqb c dquote); discriminate.
  - destruct (Ascii.eqb c dquote) eqn:Ec, (Ascii.eqb d dquote) eqn:Ed.
    + apply Ascii.eqb_eq in Ec, Ed. subst. intros [= H]. f_equal. now apply IH.
    + intros [= _ H]. symmetry in H. now apply escapeQuotes_head in H.
    + intros [= _ H]. now apply escapeQuotes_head in H.
    + intros [= -> H]. f_equal. now apply IH.
Qed.

Lemma startsWith_dash (s : string) :
  startsWith s "-" = true -> exists r, s = String "-"%char r.
Proof.
  unfold startsWith. destruct s as [|c s]; [discriminate |].
  change (String.prefix "-" (String c s))
    with (if ascii_dec "-" c then String.prefix EmptyString s else false).
  destruct (ascii_dec "-" c) as [<- | _]; [| discriminate].
  intros _. now exists s.
Qed.

(** X26: [toString] leaves an argument that starts with [-] as it is and
    puts any other argument between double quotes, with a backslash before
    each double quote inside; no double quote of the escaped text stands
    bare, and two arguments get the same text only when they are the same
    argument. *)
Theorem quoteArg_distinguishes (a b : string) :
  (quoteArg a = quoteArg b <-> a = b)
  /\ quoteArg a =
       (if startsWith a "-" then a
        else String dquote (escapeQuotes a +:+ String dquote EmptyString))
  /\ noBareQuote false (escapeQuotes a) = true.
Proof.
  split; [| split; [reflexivity |]].
  - split; [| now intros ->].
    unfold quoteArg.
    destruct (startsWith a "-") eqn:Ea, (startsWith b "-") eqn:Eb.
    + trivial.
    + apply startsWith_dash in Ea as [r ->]. intros H. inversion H.
    + apply startsWith_dash in Eb as [r ->]. intros H. inversion H.
    + intros [= H]. apply append_cancel_r in H. now apply escapeQuotes_inj.
  - generalize false. induction a as [|c a IH]; intros afterBackslash; simpl;
      [reflexivity |].
    destruct (Ascii.eqb c dquote) eqn:Ec; simpl.
    + apply IH.
    + rewrite Ec. apply IH.
Qed.


End QuotingFacts.

(** * The further properties on the scenario *)

Section MoreOnTheScenario.

Import FFmpegCommand.

(** X4 on the overlay chain: its two inputs bound in one call, without a
    warning. *)
Lemma addInputs_succeeds_iff_witness :
  FilterChain.inputNode Realisation.overlayChain = Some Realisation.overlay
  /\ (FilterChain.addInputs Realisation.overlayChain
        (FilterChain.VArray
           (map FilterChain.VStreamSpecifier [Realisation.video0; Realisation.video1]))).2
     = Ok [].
Proof.
  split; [reflexivity |].
  apply (proj2 (proj2 (addInputs_succeeds_iff Realisation.overlayChain Realisation.overlay
                         [Realisation.video0; Realisation.video1] eq_refl))).
  left. reflexivity.
Defined.

(** X6 on the overlay chain: a call that under-fills, one that would
    over-fill, one that fills. *)
Lemma addInputs_keeps_finite_arity_witness :
  FilterChain.inputNode Realisation.overlayChain = Some Realisation.overlay
  /\ FilterChain.orMore Realisation.overlay = false
  /\ length (FilterChain.inputs Realisation.overlayChain)
     <= length (FilterNode.inputs Realisation.overlay)
  /\ length
       (FilterChain.inputs
          (fold_left (fun c' v => (FilterChain.addInputs c' v).1)
             [FilterChain.VArray [FilterChain.VStreamSpecifier Realisation.video0];
              FilterChain.VArray [FilterChain.VStreamSpecifier Realisation.video0;
                                  FilterChain.VStreamSpecifier Realisation.video1];
              FilterChain.VArray [FilterChain.VStreamSpecifier Realisation.padOfChain1]]
             Realisation.overlayChain))
     <= length (FilterNode.inputs Realisation.overlay).
Proof.
  split; [reflexivity |]. split; [reflexivity |]. split; [simpl; lia |].
  apply (addInputs_keeps_finite_arity Realisation.overlayChain Realisation.overlay
           [FilterChain.VArray [FilterChain.VStreamSpecifier Realisation.video0];
            FilterChain.VArray [FilterChain.VStreamSpecifier Realisation.video0;
                                FilterChain.VStreamSpecifier Realisation.video1];
            FilterChain.VArray [FilterChain.VStreamSpecifier Realisation.padOfChain1]]
           eq_refl eq_refl).
  simpl. lia.
Defined.

(** X7 on the bound overlay chain with [edgedetect] put first. *)
Lemma prependNodes_then_addInputs_witness :
  FilterChain.orMore Realisation.edgedetect = false
  /\ length (FilterNode.inputs Realisation.edgedetect)
     < length (FilterChain.inputs Realisation.overlayBound)
  /\ FilterChain.addInputs
       (FilterChain.prependNodes Realisation.overlayBound [Realisation.edgedetect])
       (FilterChain.VArray [])
     = (FilterChain.prependNodes Realisation.overlayBound [Realisation.edgedetect],
        Throw (Error "Too many inputs specified: 1 inputs required")).
Proof.
  split; [reflexivity |]. split; [simpl; lia |].
  apply (proj2 (prependNodes_then_addInputs Realisation.overlayBound Realisation.edgedetect
                  [] [] eq_refl ltac:(simpl; lia))).
Defined.

(** X9 on the overlay chain after an [addInput] that warns and an append. *)
Lemma constructed_chain_renders_witness :
  FilterChain.constructor (FilterChain.VArray [FilterChain.VFilterNode Realisation.overlay])
  = Ok Realisation.overlayChain
  /\ FilterChain.toString
       (FilterChain.performAll Realisation.overlayChain
          [FilterChain.AddInput (FilterChain.VStreamSpecifier Realisation.video0);
           FilterChain.AppendNodes [Realisation.edgedetectRequested]])
     = Ok "[0:v]overlay,edgedetect[chain0_edgedetect_0]".
Proof.
  split; [reflexivity |].
  rewrite (constructed_chain_renders
             (FilterChain.VArray [FilterChain.VFilterNode Realisation.overlay])
             Realisation.overlayChain
             [FilterChain.AddInput (FilterChain.VStreamSpecifier Realisation.video0);
              FilterChain.AppendNodes [Realisation.edgedetectRequested]] eq_refl).
  reflexivity.
Defined.

(** X10 on the bound overlay chain with [edgedetect] appended. *)
Lemma appendNodes_renders_witness :
  FilterChain.nodes Realisation.overlayBound <> []
  /\ FilterChain.toString
       (FilterChain.appendNodes Realisation.overlayBound [Realisation.edgedetectRequested])
     = Ok "[0:v][1:v]overlay,edgedetect[chain0_edgedetect_0]".
Proof.
  split; [discriminate |].
  exact (appendNodes_renders Realisation.overlayBound [] Realisation.edgedetectRequested
           ltac:(discriminate)).
Defined.

(** X13 on the input [clip.mov] added first and last. *)
Lemma label_is_last_position_witness :
  _inputs (cmd Realisation.fresh) = []
  /\ inputs (Realisation.performAll Realisation.fresh [AddInput 0; AddInput 3; AddInput 0])
     = [0; 3; 0].
Proof.
  split; [reflexivity |].
  apply (proj1 (label_is_last_position Realisation.Output Realisation.Filter
                  Realisation.addOptions Realisation.mapTrack Realisation.outputPadNames
                  Realisation.markOutputPadMapped Realisation.fresh
                  [AddInput 0; AddInput 3; AddInput 0] eq_refl)).
Defined.

(** X14 on the second of two inputs, with an output added in between. *)
Lemma mapping_index_is_label_witness :
  _inputs (cmd Realisation.fresh) = []
  /\ NoDup (inputsAdded [AddInput 0; AddOutput 1 VNull; AddInput 3])
  /\ inputsAdded [AddInput 0; AddOutput 1 VNull; AddInput 3] !! 1 = Some 3
  /\ (Realisation.getMappingParameterValue
        (Realisation.performAll Realisation.fresh
           [AddInput 0; AddOutput 1 VNull; AddInput 3])
        (VInput 3) (VNumber 0)).2
     = Ok (MapInput 1 (VNumber 0)).
Proof.
  assert (NoDup (inputsAdded [AddInput 0; AddOutput 1 VNull; AddInput 3])) as Hnd.
  { apply (bool_decide_unpack _). vm_compute. exact I. }
  split; [reflexivity |]. split; [exact Hnd |]. split; [reflexivity |].
  apply (proj1 (mapping_index_is_label Realisation.Output Realisation.Filter
                  Realisation.addOptions Realisation.mapTrack Realisation.outputPadNames
                  Realisation.markOutputPadMapped Realisation.fresh
                  [AddInput 0; AddOutput 1 VNull; AddInput 3] 1 3 (VNumber 0)
                  eq_refl Hnd eq_refl)).
Defined.

(** X15 on the input [clip.mov] added first and last. *)
Lemma twice_added_input_positions_witness :
  _inputs (cmd Realisation.fresh) = []
  /\ inputsAdded [AddInput 0; AddInput 3; AddInput 0] !! 0 = Some 0
  /\ inputsAdded [AddInput 0; AddInput 3; AddInput 0] !! 2 = Some 0
  /\ 0 < 2
  /\ inputObjs (Realisation.performAll Realisation.fresh [AddInput 0; AddInput 3; AddInput 0])
     !! 0 = Some {| FFmpegInput.url := "clip.mov"; FFmpegInput.inputLabel := Some 2 |}
  /\ exists first last,
       (Realisation.getMappingParameterValue
          (Realisation.performAll Realisation.fresh [AddInput 0; AddInput 3; AddInput 0])
          (VInput 0) VUndefined).2
       = Ok (MapInput first VUndefined)
       /\ Some 2 = Some last
       /\ first <= 0 /\ 2 <= last.
Proof.
  assert (inputObjs
            (Realisation.performAll Realisation.fresh [AddInput 0; AddInput 3; AddInput 0])
          !! 0 = Some {| FFmpegInput.url := "clip.mov"; FFmpegInput.inputLabel := Some 2 |})
    as Hobj by (vm_compute; reflexivity).
  split; [reflexivity |]. split; [reflexivity |]. split; [reflexivity |].
  split; [lia |]. split; [exact Hobj |].
  apply (twice_added_input_positions Realisation.Output Realisation.Filter
           Realisation.addOptions Realisation.mapTrack Realisation.outputPadNames
           Realisation.markOutputPadMapped Realisation.fresh
           [AddInput 0; AddInput 3; AddInput 0] 0 2 0 _ VUndefined
           eq_refl eq_refl eq_refl ltac:(lia) Hobj).
Defined.

(** X20 on the output [out.mp4] mapped from the input of the scenario. *)
Lemma processMappings_maps_inputs_witness :
  outputObjs Realisation.scenario !! 1 = Some "out.mp4"
  /\ Forall2 (fun r p => indexOf (_inputs (cmd Realisation.scenario)) r = Some p) [0] [0]
  /\ (Realisation.processMappings Realisation.scenario (VArray (map VInput [0])) (Some 1)).2
     = Ok (Some 1).
Proof.
  assert (outputObjs Realisation.scenario !! 1 = Some "out.mp4") as Hout
    by (vm_compute; reflexivity).
  assert (Forall2 (fun r p => indexOf (_inputs (cmd Realisation.scenario)) r = Some p) [0] [0])
    as Hpos by (repeat constructor).
  split; [exact Hout |]. split; [exact Hpos |].
  apply (proj1 (processMappings_maps_inputs Realisation.Output Realisation.Filter
                  Realisation.mapTrack Realisation.outputPadNames
                  Realisation.markOutputPadMapped Realisation.scenario 1 "out.mp4"
                  [0] [0] Hout Hpos)).
Defined.

(** X21 on a mapping written as the documented pair of source and index. *)
Lemma processMappings_stops_at_other_witness :
  outputObjs Realisation.scenario !! 1 = Some "out.mp4"
  /\ Forall2 (fun r p => indexOf (_inputs (cmd Realisation.scenario)) r = Some p) [0] [0]
  /\ (forall r, VArray [VInput 0; VNumber 0] <> VInput r)
  /\ (Realisation.processMappings Realisation.scenario
        (VArray (map VInput [0] ++ VArray [VInput 0; VNumber 0] :: [])) (Some 1)).2
     = Throw (ReferenceError "FilterNode").
Proof.
  assert (outputObjs Realisation.scenario !! 1 = Some "out.mp4") as Hout
    by (vm_compute; reflexivity).
  assert (Forall2 (fun r p => indexOf (_inputs (cmd Realisation.scenario)) r = Some p) [0] [0])
    as Hpos by (repeat constructor).
  assert (forall r, VArray [VInput 0; VNumber 0] <> VInput r) as Hv
    by (intros r; discriminate).
  split; [exact Hout |]. split; [exact Hpos |]. split; [exact Hv |].
  apply (proj1 (processMappings_stops_at_other Realisation.Output Realisation.Filter
                  Realisation.mapTrack Realisation.outputPadNames
                  Realisation.markOutputPadMapped Realisation.scenario 1 "out.mp4"
                  [0] [0] (VArray [VInput 0; VNumber 0]) [] Hout Hpos Hv)).
Defined.

(** X22 on the first input of a command. *)
Lemma toCommand_after_addInput_witness :
  inputObjs Realisation.fresh !! 0
  = Some {| FFmpegInput.url := "clip.mov"; FFmpegInput.inputLabel := None |}
  /\ (0 ∉ _inputs (cmd Realisation.fresh))
  /\ args (Realisation.toCommand (Realisation.addInput Realisation.fresh 0)).2
     = ["-i"; "clip.mov"].
Proof.
  assert (inputObjs Realisation.fresh !! 0
          = Some {| FFmpegInput.url := "clip.mov"; FFmpegInput.inputLabel := None |})
    as Hobj by (vm_compute; reflexivity).
  assert (0 ∉ _inputs (cmd Realisation.fresh)) as Hfresh by apply not_elem_of_nil.
  split; [exact Hobj |]. split; [exact Hfresh |].
  unfold Realisation.toCommand, Realisation.addInput.
  rewrite (toCommand_after_addInput Realisation.Output Realisation.Filter
             Realisation.ffmpeg_bin Realisation.inputToCommandArray
             Realisation.outputToCommandArray Realisation.fresh 0 _ Hobj Hfresh).
  reflexivity.
Defined.

(** X24 on the graph of the scenario, added without an output. *)
Lemma toCommand_after_addFilterGraph_witness :
  (forall o, VNull <> VOutput o)
  /\ (Realisation.toCommand
        (Realisation.addFilterGraph Realisation.fresh (VFilterGraph 2) VNull).1).2
     = (Realisation.toCommand Realisation.fresh).2.
Proof.
  assert (forall o, VNull <> VOutput o) as Hno by (intros o; discriminate).
  split; [exact Hno |].
  apply (proj1 (toCommand_after_addFilterGraph Realisation.Output Realisation.Filter
                  Realisation.ffmpeg_bin Realisation.inputToCommandArray
                  Realisation.outputToCommandArray Realisation.addOptions
                  Realisation.fresh (VFilterGraph 2) VNull Hno)).
Defined.

(** X25 on the command of the scenario before anything is added. *)
Lemma toString_of_empty_command_witness :
  options (cmd Realisation.fresh) = []
  /\ _inputs (cmd Realisation.fresh) = []
  /\ _outputs (cmd Realisation.fresh) = []
  /\ (Realisation.toString Realisation.fresh).2 = "ffmpeg ".
Proof.
  split; [reflexivity |]. split; [reflexivity |]. split; [reflexivity |].
  apply (proj2 (toString_of_empty_command Realisation.Output Realisation.Filter
                  Realisation.ffmpeg_bin Realisation.inputToCommandArray
                  Realisation.outputToCommandArray Realisation.fresh
                  eq_refl eq_refl eq_refl)).
Defined.

End MoreOnTheScenario.
